(** * whats-cli: the ingestion and reconciliation engine

    A shallow embedding of [src/services/store.ts] (the SQLite store), of
    [src/services/whatsapp.ts] (the [WhatsAppService] class) and of the two
    helpers of [src/utils/formatters.ts] they call, followed by the
    properties of the specification that concern them.

    Tables are finite maps keyed by their primary key, a statement run on
    the database is a function from database to database, and the service
    is a record threaded through its handlers together with the database,
    the timer queue of the event loop and the log of emitted events. *)

From Stdlib Require Import ZArith String Ascii DecimalString.
From stdpp Require Import gmap strings list fin_maps sorting.

Local Open Scope string_scope.
Local Open Scope Z_scope.

(** ** JavaScript values *)

Module JS.

(** A string is truthy unless it is empty. *)
Definition truthy (s : string) : bool :=
  match s with
  | EmptyString => false
  | String _ _ => true
  end.

(** [a || b] on two strings. *)
Definition or (a b : string) : string := if truthy a then a else b.

(** [o || b] where [o] may be [null] or [undefined]. *)
Definition or_default (o : option string) (b : string) : string :=
  match o with
  | Some a => or a b
  | None => b
  end.

(** Truthiness of a possibly absent string. *)
Definition truthy_opt (o : option string) : bool :=
  match o with
  | Some a => truthy a
  | None => false
  end.

(** [`${n}`] for an integral number. *)
Definition number_to_string (n : Z) : string :=
  NilZero.string_of_int (Z.to_int n).

End JS.

(** ** src/types/index.ts *)

Inductive MessageStatus := Pending | Sent | Delivered | Read | Error.

Inductive MessageType :=
  | Text | Image | Video | Audio | Document | Sticker
  | Contact | Location | Reaction | Unknown.

Inductive ConnectionState := Disconnected | Connecting | QRReady | Connected.

(** The string value of a [MessageType] member. *)
Definition MessageType_value (t : MessageType) : string :=
  match t with
  | Text => "text" | Image => "image" | Video => "video" | Audio => "audio"
  | Document => "document" | Sticker => "sticker" | Contact => "contact"
  | Location => "location" | Reaction => "reaction" | Unknown => "unknown"
  end.

Record Chat := mkChat {
  jid : string;
  name : string;
  lastMessage : string;
  lastMessageAt : Z;
  unreadCount : Z;
  isGroup : bool
}.

Record Message := mkMessage {
  id : string;
  chatJid : string;
  senderJid : string;
  senderName : string;
  body : string;
  timestamp : Z;
  isFromMe : bool;
  status : MessageStatus;
  type : MessageType
}.

(** ** src/utils/formatters.ts *)

(** [jid.split('@')[0]]: the part of the string before its first ['@']. *)
Fixpoint before_at (s : string) : string :=
  match s with
  | EmptyString => EmptyString
  | String c rest => if Ascii.eqb c "@" then EmptyString else String c (before_at rest)
  end.

Definition jidToPhoneNumber (jid : string) : string :=
  let number := before_at jid in
  if JS.truthy number then "+" ++ number else jid.

(** [s.endsWith(suffix)]. *)
Definition endsWith (s suffix : string) : bool :=
  let n := String.length s in
  let k := String.length suffix in
  (k <=? n)%nat && String.eqb (substring (n - k) k s) suffix.

Definition isGroupJid (jid : string) : bool := endsWith jid "@g.us".

(** ** src/services/store.ts *)

(** Rows of the three tables the engine writes, without their key. *)
Record ContactRow := mkContactRow {
  ct_name : string;
  ct_notify : string
}.

Record ChatRow := mkChatRow {
  c_name : string;
  last_message : string;
  last_message_at : Z;
  unread_count : Z;
  is_group : Z
}.

Record MessageRow := mkMessageRow {
  chat_jid : string;
  sender_jid : string;
  sender_name : string;
  m_body : string;
  m_timestamp : Z;
  is_from_me : Z;
  m_status : MessageStatus;
  m_type : MessageType
}.

Record Db := mkDb {
  contacts : gmap string ContactRow;
  chats : gmap string ChatRow;
  messages : gmap string MessageRow
}.

Definition emptyDb : Db := mkDb ∅ ∅ ∅.

Definition set_contacts (f : gmap string ContactRow -> gmap string ContactRow) (db : Db) : Db :=
  mkDb (f (contacts db)) (chats db) (messages db).

Definition set_chats (f : gmap string ChatRow -> gmap string ChatRow) (db : Db) : Db :=
  mkDb (contacts db) (f (chats db)) (messages db).

Definition set_messages (f : gmap string MessageRow -> gmap string MessageRow) (db : Db) : Db :=
  mkDb (contacts db) (chats db) (f (messages db)).

(** [INSERT ... ON CONFLICT(key) DO UPDATE SET ...]: the row is inserted as
    it is when the key is free, and otherwise replaced by the merge of the
    stored row with the proposed one ([excluded]). *)
Definition insert_on_conflict {V} (key : string) (excluded : V)
    (merge : V -> V -> V) (table : gmap string V) : gmap string V :=
  match table !! key with
  | None => <[key := excluded]> table
  | Some stored => <[key := merge stored excluded]> table
  end.

(** [UPDATE table SET ... WHERE key = ?]. *)
Definition update_where {V} (key : string) (f : V -> V)
    (table : gmap string V) : gmap string V :=
  alter f key table.

Definition bool_to_int (b : bool) : Z := if b then 1 else 0.

(** *** Contact operations *)

Definition merge_contact (stored excluded : ContactRow) : ContactRow :=
  {| ct_name := if JS.truthy (ct_name excluded) then ct_name excluded else ct_name stored;
     ct_notify := if JS.truthy (ct_notify excluded) then ct_notify excluded else ct_notify stored |}.

Definition upsertContact (jid name notify : string) (db : Db) : Db :=
  set_contacts (insert_on_conflict jid (mkContactRow name notify) merge_contact) db.

Definition getContactName (jid : string) (db : Db) : option string :=
  match contacts db !! jid with
  | None => None
  | Some row =>
      if JS.truthy (ct_name row) then Some (ct_name row)
      else if JS.truthy (ct_notify row) then Some (ct_notify row)
      else None
  end.

(** *** Chat operations *)

Definition merge_chat (stored excluded : ChatRow) : ChatRow :=
  {| c_name := if JS.truthy (c_name excluded) then c_name excluded else c_name stored;
     last_message :=
       if last_message_at excluded >? last_message_at stored
       then last_message excluded else last_message stored;
     last_message_at := Z.max (last_message_at excluded) (last_message_at stored);
     unread_count := unread_count excluded;
     is_group := is_group excluded |}.

Definition chat_row (chat : Chat) : ChatRow :=
  {| c_name := name chat;
     last_message := lastMessage chat;
     last_message_at := lastMessageAt chat;
     unread_count := unreadCount chat;
     is_group := bool_to_int (isGroup chat) |}.

Definition upsertChat (chat : Chat) (db : Db) : Db :=
  set_chats (insert_on_conflict (jid chat) (chat_row chat) merge_chat) db.

Definition updateChatName (jid name : string) (db : Db) : Db :=
  set_chats (update_where jid (fun r =>
    mkChatRow name (last_message r) (last_message_at r) (unread_count r) (is_group r))) db.

Definition resetUnreadCount (jid : string) (db : Db) : Db :=
  set_chats (update_where jid (fun r =>
    mkChatRow (c_name r) (last_message r) (last_message_at r) 0 (is_group r))) db.

Definition incrementUnreadCount (jid : string) (db : Db) : Db :=
  set_chats (update_where jid (fun r =>
    mkChatRow (c_name r) (last_message r) (last_message_at r) (unread_count r + 1) (is_group r))) db.

(** [NULLIF(x, '')] and [COALESCE(a, b, '')] on a column that is [NULL]
    when the [LEFT JOIN] found no row. *)
Definition NULLIF_empty (x : option string) : option string :=
  match x with
  | Some s => if JS.truthy s then Some s else None
  | None => None
  end.

Definition COALESCE (a b : option string) (c : string) : string :=
  match a with
  | Some s => s
  | None => match b with Some s => s | None => c end
  end.

(** [ORDER BY last_message_at DESC]; the order of rows with equal
    timestamps is the one the stable sort leaves. *)
Definition newer_first (a b : string * ChatRow) : Prop :=
  last_message_at a.2 >= last_message_at b.2.

#[global] Instance newer_first_dec a b : Decision (newer_first a b).
Proof. unfold newer_first. apply _. Defined.

Definition contact_name (jid : string) (db : Db) : string :=
  let ct := contacts db !! jid in
  COALESCE (NULLIF_empty (ct_name <$> ct)) (NULLIF_empty (ct_notify <$> ct)) "".

Definition getAllChats (db : Db) : list Chat :=
  let rows := merge_sort newer_first (map_to_list (chats db)) in
  (fun '(jid, row) =>
     {| jid := jid;
        name := JS.or (contact_name jid db) (c_name row);
        lastMessage := last_message row;
        lastMessageAt := last_message_at row;
        unreadCount := unread_count row;
        isGroup := bool_decide (is_group row = 1) |}) <$> rows.

(** *** Message operations *)

Definition message_row (msg : Message) : MessageRow :=
  {| chat_jid := chatJid msg;
     sender_jid := senderJid msg;
     sender_name := senderName msg;
     m_body := body msg;
     m_timestamp := timestamp msg;
     is_from_me := bool_to_int (isFromMe msg);
     m_status := status msg;
     m_type := type msg |}.

Definition row_message (id : string) (row : MessageRow) : Message :=
  {| id := id;
     chatJid := chat_jid row;
     senderJid := sender_jid row;
     senderName := sender_name row;
     body := m_body row;
     timestamp := m_timestamp row;
     isFromMe := bool_decide (is_from_me row = 1);
     status := m_status row;
     type := m_type row |}.

(** [INSERT OR REPLACE INTO messages]: the primary key is [id] alone. *)
Definition upsertMessage (msg : Message) (db : Db) : Db :=
  set_messages (fun table => <[id msg := message_row msg]> table) db.

Definition updateMessageStatus (id : string) (st : MessageStatus) (db : Db) : Db :=
  set_messages (update_where id (fun r =>
    mkMessageRow (chat_jid r) (sender_jid r) (sender_name r) (m_body r)
                 (m_timestamp r) (is_from_me r) st (m_type r))) db.

(** The rows [WHERE chat_jid = ?] selects. *)
Definition messagesOfChat (chatJid : string) (db : Db) : gmap string MessageRow :=
  filter (fun kv => chat_jid kv.2 = chatJid) (messages db).

Definition later_first (a b : string * MessageRow) : Prop :=
  m_timestamp a.2 >= m_timestamp b.2.

Definition earlier_first (a b : string * MessageRow) : Prop :=
  m_timestamp a.2 <= m_timestamp b.2.

#[global] Instance later_first_dec a b : Decision (later_first a b).
Proof. unfold later_first. apply _. Defined.

#[global] Instance earlier_first_dec a b : Decision (earlier_first a b).
Proof. unfold earlier_first. apply _. Defined.

Definition getMessagesForChat (chatJid : string) (limit : nat) (db : Db) : list Message :=
  let sub := take limit (merge_sort later_first (map_to_list (messagesOfChat chatJid db))) in
  (fun '(id, row) => row_message id row) <$> merge_sort earlier_first sub.

(** The number of messages stored for a conversation. *)
Definition messageCount (chatJid : string) (db : Db) : nat :=
  size (messagesOfChat chatJid db).

(** Whether the row stored under [k] belongs to conversation [c]. *)
Definition storedIn (c k : string) (db : Db) : bool :=
  bool_decide (chat_jid <$> messages db !! k = Some c).

(** The first non-empty string of a priority chain, and the empty string
    when there is none. *)
Fixpoint firstNonEmpty (chain : list string) : string :=
  match chain with
  | [] => ""
  | s :: rest => if JS.truthy s then s else firstNonEmpty rest
  end.

(** The addressbook name and the notify name on record for an
    identifier, empty when there is no contact row. *)
Definition addressbookName (jid : string) (db : Db) : string :=
  from_option ct_name "" (contacts db !! jid).

Definition notifyName (jid : string) (db : Db) : string :=
  from_option ct_notify "" (contacts db !! jid).

(** ** src/services/whatsapp.ts: message content *)

(** [WAMessageContent], restricted to the fields [extractContent] reads.
    A field that holds an object is [Some] when the object is there; a
    sub-object of which one field is read is represented by that field. *)
Inductive WAMessageContent := mkContent {
  ephemeralMessage : option FutureProofMessage;
  viewOnceMessage : option FutureProofMessage;
  viewOnceMessageV2 : option FutureProofMessage;
  viewOnceMessageV2Extension : option FutureProofMessage;
  documentWithCaptionMessage : option FutureProofMessage;
  editedMessage : option FutureProofMessage;
  protocolMessage : option ProtocolMessage;
  senderKeyDistributionMessage : option unit;
  conversation : option string;
  extendedTextMessage : option (option string);       (* .text *)
  imageMessage : option (option string);              (* .caption *)
  videoMessage : option (option string);              (* .caption *)
  audioMessage : option (option bool);                (* .ptt *)
  documentMessage : option (option string);           (* .fileName *)
  stickerMessage : option unit;
  contactMessage : option (option string);            (* .displayName *)
  contactsArrayMessage : option (option nat);         (* .contacts?.length *)
  locationMessage : option unit;
  liveLocationMessage : option unit;
  reactionMessage : option (option string);           (* .text *)
  pollCreationMessage : option (option string);       (* .name *)
  pollCreationMessageV2 : option (option string);     (* .name *)
  pollCreationMessageV3 : option (option string);     (* .name *)
  pollUpdateMessage : option unit;
  listMessage : option (option string * option string); (* .title, .description *)
  buttonsMessage : option (option string);            (* .contentText *)
  templateMessage : option unit;
  groupInviteMessage : option (option string);        (* .groupName *)
  interactiveMessage :
    option (option (option string) * option (option string)); (* .header?.title, .body?.text *)
  orderMessage : option unit;
  paymentInviteMessage : option unit;
  pinInChatMessage : option unit;
  keepInChatMessage : option unit
}
with FutureProofMessage := mkFutureProof {
  message : option WAMessageContent
}
with ProtocolMessage := mkProtocol {
  protocolType : option Z;
  protocolEdited : option WAMessageContent
}.

(** An envelope with no field set. *)
Definition noContent : WAMessageContent :=
  mkContent None None None None None None None None None None None None None
            None None None None None None None None None None None None None
            None None None None None None None.

Record Extracted := mkExtracted {
  ex_body : string;
  ex_type : MessageType
}.

(** The result that tells the caller to drop the event. *)
Definition sentinel : Extracted := mkExtracted "" Unknown.

(** [w?.message]. *)
Definition inner (w : option FutureProofMessage) : option WAMessageContent :=
  match w with
  | Some fp => message fp
  | None => None
  end.

(** [a || b] on two possibly absent objects. *)
Definition orElse {A} (a b : option A) : option A :=
  match a with
  | Some x => Some x
  | None => b
  end.

Definition innerMessage (content : WAMessageContent) : option WAMessageContent :=
  orElse (inner (ephemeralMessage content))
  (orElse (inner (viewOnceMessage content))
  (orElse (inner (viewOnceMessageV2 content))
  (orElse (inner (viewOnceMessageV2Extension content))
  (orElse (inner (documentWithCaptionMessage content))
          (inner (editedMessage content)))))).

Definition is_some {A} (o : option A) : bool :=
  match o with Some _ => true | None => false end.

(** The classification table that follows the unwrapping and the
    protocol tests of [extractContent], in the order of the source. *)
Definition actualContent (content : WAMessageContent) : Extracted :=
  if JS.truthy_opt (conversation content) then
    mkExtracted (default "" (conversation content)) Text
  else if JS.truthy_opt (mjoin (extendedTextMessage content)) then
    mkExtracted (default "" (mjoin (extendedTextMessage content))) Text
  else if imageMessage content is Some caption then
    mkExtracted (JS.or_default caption "📷 Photo") Image
  else if videoMessage content is Some caption then
    mkExtracted (JS.or_default caption "🎥 Video") Video
  else if audioMessage content is Some ptt then
    mkExtracted (if default false ptt then "🎤 Voice message" else "🎵 Audio") Audio
  else if documentMessage content is Some fileName then
    mkExtracted (JS.or_default fileName "📄 Document") Document
  else if is_some (stickerMessage content) then
    mkExtracted "🏷️ Sticker" Sticker
  else if contactMessage content is Some displayName then
    mkExtracted (JS.or_default displayName "👤 Contact") Contact
  else if contactsArrayMessage content is Some contacts then
    let count := default 0%nat contacts in
    mkExtracted ("👥 " ++ JS.number_to_string (Z.of_nat count) ++ " contacts") Contact
  else if is_some (locationMessage content) then
    mkExtracted "📍 Location" Location
  else if is_some (liveLocationMessage content) then
    mkExtracted "📍 Live location" Location
  else if reactionMessage content is Some text then
    mkExtracted (JS.or_default text "❤️") Reaction
  else if orElse (pollCreationMessage content)
            (orElse (pollCreationMessageV2 content) (pollCreationMessageV3 content))
          is Some poll then
    mkExtracted ("📊 Poll: " ++ JS.or_default poll "Poll") Text
  else if is_some (pollUpdateMessage content) then
    mkExtracted "📊 Poll vote" Text
  else if listMessage content is Some (title, description) then
    mkExtracted (JS.or_default title (JS.or_default description "📋 List")) Text
  else if buttonsMessage content is Some contentText then
    mkExtracted (JS.or_default contentText "🔘 Buttons") Text
  else if is_some (templateMessage content) then
    mkExtracted "📝 Template" Text
  else if groupInviteMessage content is Some groupName then
    mkExtracted ("📨 Group invite: " ++ JS.or_default groupName "Group") Text
  else if interactiveMessage content is Some (header, body) then
    mkExtracted
      (JS.or_default (mjoin body) (JS.or_default (mjoin header) "🔲 Interactive message"))
      Text
  else if is_some (orderMessage content) then
    mkExtracted "🛒 Order" Text
  else if is_some (paymentInviteMessage content) then
    mkExtracted "💰 Payment" Text
  else if is_some (pinInChatMessage content) then
    mkExtracted "📌 Pinned a message" Text
  else if is_some (keepInChatMessage content) then
    mkExtracted "📌 Kept a message" Text
  else
    mkExtracted "💬 [Unsupported message]" Unknown.

(** What [extractContent] does once no wrapper holds an inner message:
    either one more recursive call, on the replacement content of an
    edit, or a result. *)
Definition afterUnwrap {R} (content : WAMessageContent)
    (recurse : WAMessageContent -> R) (result : Extracted -> R) : R :=
  match protocolMessage content with
  | Some pm =>
      let protoType := protocolType pm in
      if bool_decide (protoType = Some 14) then
        match protocolEdited pm with
        | Some edited => recurse edited
        | None => result sentinel
        end
      else result sentinel
  | None =>
      if is_some (senderKeyDistributionMessage content)
         && negb (JS.truthy_opt (conversation content))
         && negb (is_some (extendedTextMessage content))
      then result sentinel
      else result (actualContent content)
  end.

(** [w?.message || rest], with the recursive call made on the spot so
    that the recursion is structural. *)
Definition unwrapOr {R} (w : option FutureProofMessage)
    (recurse : WAMessageContent -> R) (rest : R) : R :=
  match w with
  | Some fp =>
      match message fp with
      | Some m => recurse m
      | None => rest
      end
  | None => rest
  end.

Fixpoint extract (content : WAMessageContent) : Extracted :=
  unwrapOr (ephemeralMessage content) extract
  (unwrapOr (viewOnceMessage content) extract
  (unwrapOr (viewOnceMessageV2 content) extract
  (unwrapOr (viewOnceMessageV2Extension content) extract
  (unwrapOr (documentWithCaptionMessage content) extract
  (unwrapOr (editedMessage content) extract
  (afterUnwrap content extract (fun r => r))))))).

Definition extractContent (content : option WAMessageContent) : Extracted :=
  match content with
  | None => mkExtracted "" Unknown
  | Some c => extract c
  end.

(** *** Building envelopes

    [{ ...content, field: v }] for the fields the properties below set. *)

Definition with_ephemeralMessage v (c : WAMessageContent) : WAMessageContent :=
  mkContent v (viewOnceMessage c) (viewOnceMessageV2 c)
    (viewOnceMessageV2Extension c) (documentWithCaptionMessage c)
    (editedMessage c) (protocolMessage c) (senderKeyDistributionMessage c)
    (conversation c) (extendedTextMessage c) (imageMessage c) (videoMessage c)
    (audioMessage c) (documentMessage c) (stickerMessage c) (contactMessage c)
    (contactsArrayMessage c) (locationMessage c) (liveLocationMessage c)
    (reactionMessage c) (pollCreationMessage c) (pollCreationMessageV2 c)
    (pollCreationMessageV3 c) (pollUpdateMessage c) (listMessage c)
    (buttonsMessage c) (templateMessage c) (groupInviteMessage c)
    (interactiveMessage c) (orderMessage c) (paymentInviteMessage c)
    (pinInChatMessage c) (keepInChatMessage c).

Definition with_viewOnceMessage v (c : WAMessageContent) : WAMessageContent :=
  mkContent (ephemeralMessage c) v (viewOnceMessageV2 c)
    (viewOnceMessageV2Extension c) (documentWithCaptionMessage c)
    (editedMessage c) (protocolMessage c) (senderKeyDistributionMessage c)
    (conversation c) (extendedTextMessage c) (imageMessage c) (videoMessage c)
    (audioMessage c) (documentMessage c) (stickerMessage c) (contactMessage c)
    (contactsArrayMessage c) (locationMessage c) (liveLocationMessage c)
    (reactionMessage c) (pollCreationMessage c) (pollCreationMessageV2 c)
    (pollCreationMessageV3 c) (pollUpdateMessage c) (listMessage c)
    (buttonsMessage c) (templateMessage c) (groupInviteMessage c)
    (interactiveMessage c) (orderMessage c) (paymentInviteMessage c)
    (pinInChatMessage c) (keepInChatMessage c).

Definition with_viewOnceMessageV2 v (c : WAMessageContent) : WAMessageContent :=
  mkContent (ephemeralMessage c) (viewOnceMessage c) v
    (viewOnceMessageV2Extension c) (documentWithCaptionMessage c)
    (editedMessage c) (protocolMessage c) (senderKeyDistributionMessage c)
    (conversation c) (extendedTextMessage c) (imageMessage c) (videoMessage c)
    (audioMessage c) (documentMessage c) (stickerMessage c) (contactMessage c)
    (contactsArrayMessage c) (locationMessage c) (liveLocationMessage c)
    (reactionMessage c) (pollCreationMessage c) (pollCreationMessageV2 c)
    (pollCreationMessageV3 c) (pollUpdateMessage c) (listMessage c)
    (buttonsMessage c) (templateMessage c) (groupInviteMessage c)
    (interactiveMessage c) (orderMessage c) (paymentInviteMessage c)
    (pinInChatMessage c) (keepInChatMessage c).

Definition with_viewOnceMessageV2Extension v (c : WAMessageContent) : WAMessageContent :=
  mkContent (ephemeralMessage c) (viewOnceMessage c) (viewOnceMessageV2 c) v
    (documentWithCaptionMessage c) (editedMessage c) (protocolMessage c)
    (senderKeyDistributionMessage c) (conversation c) (extendedTextMessage c)
    (imageMessage c) (videoMessage c) (audioMessage c) (documentMessage c)
    (stickerMessage c) (contactMessage c) (contactsArrayMessage c)
    (locationMessage c) (liveLocationMessage c) (reactionMessage c)
    (pollCreationMessage c) (pollCreationMessageV2 c)
    (pollCreationMessageV3 c) (pollUpdateMessage c) (listMessage c)
    (buttonsMessage c) (templateMessage c) (groupInviteMessage c)
    (interactiveMessage c) (orderMessage c) (paymentInviteMessage c)
    (pinInChatMessage c) (keepInChatMessage c).

Definition with_documentWithCaptionMessage v (c : WAMessageContent) : WAMessageContent :=
  mkContent (ephemeralMessage c) (viewOnceMessage c) (viewOnceMessageV2 c)
    (viewOnceMessageV2Extension c) v (editedMessage c) (protocolMessage c)
    (senderKeyDistributionMessage c) (conversation c) (extendedTextMessage c)
    (imageMessage c) (videoMessage c) (audioMessage c) (documentMessage c)
    (stickerMessage c) (contactMessage c) (contactsArrayMessage c)
    (locationMessage c) (liveLocationMessage c) (reactionMessage c)
    (pollCreationMessage c) (pollCreationMessageV2 c)
    (pollCreationMessageV3 c) (pollUpdateMessage c) (listMessage c)
    (buttonsMessage c) (templateMessage c) (groupInviteMessage c)
    (interactiveMessage c) (orderMessage c) (paymentInviteMessage c)
    (pinInChatMessage c) (keepInChatMessage c).

Definition with_editedMessage v (c : WAMessageContent) : WAMessageContent :=
  mkContent (ephemeralMessage c) (viewOnceMessage c) (viewOnceMessageV2 c)
    (viewOnceMessageV2Extension c) (documentWithCaptionMessage c) v
    (protocolMessage c) (senderKeyDistributionMessage c) (conversation c)
    (extendedTextMessage c) (imageMessage c) (videoMessage c) (audioMessage c)
    (documentMessage c) (stickerMessage c) (contactMessage c)
    (contactsArrayMessage c) (locationMessage c) (liveLocationMessage c)
    (reactionMessage c) (pollCreationMessage c) (pollCreationMessageV2 c)
    (pollCreationMessageV3 c) (pollUpdateMessage c) (listMessage c)
    (buttonsMessage c) (templateMessage c) (groupInviteMessage c)
    (interactiveMessage c) (orderMessage c) (paymentInviteMessage c)
    (pinInChatMessage c) (keepInChatMessage c).

Definition with_protocolMessage v (c : WAMessageContent) : WAMessageContent :=
  mkContent (ephemeralMessage c) (viewOnceMessage c) (viewOnceMessageV2 c)
    (viewOnceMessageV2Extension c) (documentWithCaptionMessage c)
    (editedMessage c) v (senderKeyDistributionMessage c) (conversation c)
    (extendedTextMessage c) (imageMessage c) (videoMessage c) (audioMessage c)
    (documentMessage c) (stickerMessage c) (contactMessage c)
    (contactsArrayMessage c) (locationMessage c) (liveLocationMessage c)
    (reactionMessage c) (pollCreationMessage c) (pollCreationMessageV2 c)
    (pollCreationMessageV3 c) (pollUpdateMessage c) (listMessage c)
    (buttonsMessage c) (templateMessage c) (groupInviteMessage c)
    (interactiveMessage c) (orderMessage c) (paymentInviteMessage c)
    (pinInChatMessage c) (keepInChatMessage c).

Definition with_senderKeyDistributionMessage v (c : WAMessageContent) : WAMessageContent :=
  mkContent (ephemeralMessage c) (viewOnceMessage c) (viewOnceMessageV2 c)
    (viewOnceMessageV2Extension c) (documentWithCaptionMessage c)
    (editedMessage c) (protocolMessage c) v (conversation c)
    (extendedTextMessage c) (imageMessage c) (videoMessage c) (audioMessage c)
    (documentMessage c) (stickerMessage c) (contactMessage c)
    (contactsArrayMessage c) (locationMessage c) (liveLocationMessage c)
    (reactionMessage c) (pollCreationMessage c) (pollCreationMessageV2 c)
    (pollCreationMessageV3 c) (pollUpdateMessage c) (listMessage c)
    (buttonsMessage c) (templateMessage c) (groupInviteMessage c)
    (interactiveMessage c) (orderMessage c) (paymentInviteMessage c)
    (pinInChatMessage c) (keepInChatMessage c).

Definition with_conversation v (c : WAMessageContent) : WAMessageContent :=
  mkContent (ephemeralMessage c) (viewOnceMessage c) (viewOnceMessageV2 c)
    (viewOnceMessageV2Extension c) (documentWithCaptionMessage c)
    (editedMessage c) (protocolMessage c) (senderKeyDistributionMessage c) v
    (extendedTextMessage c) (imageMessage c) (videoMessage c) (audioMessage c)
    (documentMessage c) (stickerMessage c) (contactMessage c)
    (contactsArrayMessage c) (locationMessage c) (liveLocationMessage c)
    (reactionMessage c) (pollCreationMessage c) (pollCreationMessageV2 c)
    (pollCreationMessageV3 c) (pollUpdateMessage c) (listMessage c)
    (buttonsMessage c) (templateMessage c) (groupInviteMessage c)
    (interactiveMessage c) (orderMessage c) (paymentInviteMessage c)
    (pinInChatMessage c) (keepInChatMessage c).

Definition with_extendedTextMessage v (c : WAMessageContent) : WAMessageContent :=
  mkContent (ephemeralMessage c) (viewOnceMessage c) (viewOnceMessageV2 c)
    (viewOnceMessageV2Extension c) (documentWithCaptionMessage c)
    (editedMessage c) (protocolMessage c) (senderKeyDistributionMessage c)
    (conversation c) v (imageMessage c) (videoMessage c) (audioMessage c)
    (documentMessage c) (stickerMessage c) (contactMessage c)
    (contactsArrayMessage c) (locationMessage c) (liveLocationMessage c)
    (reactionMessage c) (pollCreationMessage c) (pollCreationMessageV2 c)
    (pollCreationMessageV3 c) (pollUpdateMessage c) (listMessage c)
    (buttonsMessage c) (templateMessage c) (groupInviteMessage c)
    (interactiveMessage c) (orderMessage c) (paymentInviteMessage c)
    (pinInChatMessage c) (keepInChatMessage c).

Definition with_imageMessage v (c : WAMessageContent) : WAMessageContent :=
  mkContent (ephemeralMessage c) (viewOnceMessage c) (viewOnceMessageV2 c)
    (viewOnceMessageV2Extension c) (documentWithCaptionMessage c)
    (editedMessage c) (protocolMessage c) (senderKeyDistributionMessage c)
    (conversation c) (extendedTextMessage c) v (videoMessage c)
    (audioMessage c) (documentMessage c) (stickerMessage c) (contactMessage c)
    (contactsArrayMessage c) (locationMessage c) (liveLocationMessage c)
    (reactionMessage c) (pollCreationMessage c) (pollCreationMessageV2 c)
    (pollCreationMessageV3 c) (pollUpdateMessage c) (listMessage c)
    (buttonsMessage c) (templateMessage c) (groupInviteMessage c)
    (interactiveMessage c) (orderMessage c) (paymentInviteMessage c)
    (pinInChatMessage c) (keepInChatMessage c).

(** The six wrapper kinds of [extractContent]. *)
Inductive Wrapper :=
  | Ephemeral | ViewOnce | ViewOnceV2 | ViewOnceV2Extension
  | DocumentWithCaption | Edited.

(** An envelope that holds nothing but [payload] inside one wrapper. *)
Definition wrap (k : Wrapper) (payload : WAMessageContent) : WAMessageContent :=
  let fp := Some (mkFutureProof (Some payload)) in
  match k with
  | Ephemeral => with_ephemeralMessage fp noContent
  | ViewOnce => with_viewOnceMessage fp noContent
  | ViewOnceV2 => with_viewOnceMessageV2 fp noContent
  | ViewOnceV2Extension => with_viewOnceMessageV2Extension fp noContent
  | DocumentWithCaption => with_documentWithCaptionMessage fp noContent
  | Edited => with_editedMessage fp noContent
  end.

(** A chain of wrappers, outermost first, around [payload]. *)
Definition wrapAll (chain : list Wrapper) (payload : WAMessageContent) : WAMessageContent :=
  foldr wrap payload chain.

(** An envelope that holds a plain text and nothing else. *)
Definition plainText (text : string) : WAMessageContent :=
  with_conversation (Some text) noContent.

(** ** src/services/whatsapp.ts: the service *)

(** The two callbacks the service hands to [setTimeout]. *)
Inductive TimerAction := EmitChatsChanged | Reconnect.

Record Timer := mkTimer {
  handle : nat;
  due : Z;
  action : TimerAction
}.

(** What [this.emit] sends to the observers. *)
Inductive Event :=
  | EvConnectionState (s : ConnectionState)
  | EvQr (code : string)
  | EvReady
  | EvMessage (msg : Message)
  | EvChatsChanged.

(** The fields of [WhatsAppService], the database of [store.ts], and the
    part of the event loop the service acts on: the clock ([Date.now()],
    in milliseconds), the pending timers and the log of emitted events,
    oldest first, each with the time of its emission. *)
Record Service := mkService {
  sock : bool;
  retryCount : Z;
  chatUpdateTimer : option nat;
  db : Db;
  clock : Z;
  nextHandle : nat;
  timers : list Timer;
  emitted : list (Z * Event)
}.

Definition maxRetries : Z := 5.

Definition newService (db : Db) (now : Z) : Service :=
  mkService false 0 None db now 0 [] [].

Definition set_sock (b : bool) (w : Service) : Service :=
  mkService b (retryCount w) (chatUpdateTimer w) (db w) (clock w)
            (nextHandle w) (timers w) (emitted w).

Definition set_retryCount (n : Z) (w : Service) : Service :=
  mkService (sock w) n (chatUpdateTimer w) (db w) (clock w)
            (nextHandle w) (timers w) (emitted w).

Definition set_chatUpdateTimer (t : option nat) (w : Service) : Service :=
  mkService (sock w) (retryCount w) t (db w) (clock w)
            (nextHandle w) (timers w) (emitted w).

Definition with_db (f : Db -> Db) (w : Service) : Service :=
  mkService (sock w) (retryCount w) (chatUpdateTimer w) (f (db w)) (clock w)
            (nextHandle w) (timers w) (emitted w).

Definition set_clock (t : Z) (w : Service) : Service :=
  mkService (sock w) (retryCount w) (chatUpdateTimer w) (db w) t
            (nextHandle w) (timers w) (emitted w).

Definition set_timers (ts : list Timer) (w : Service) : Service :=
  mkService (sock w) (retryCount w) (chatUpdateTimer w) (db w) (clock w)
            (nextHandle w) ts (emitted w).

Definition emit (ev : Event) (w : Service) : Service :=
  mkService (sock w) (retryCount w) (chatUpdateTimer w) (db w) (clock w)
            (nextHandle w) (timers w) (emitted w ++ [(clock w, ev)]).

(** [setTimeout(action, delay)]: the new timer is due [delay] ms from now. *)
Definition setTimeout (act : TimerAction) (delay : Z) (w : Service) : nat * Service :=
  let h := nextHandle w in
  (h, mkService (sock w) (retryCount w) (chatUpdateTimer w) (db w) (clock w)
                (S h) (timers w ++ [mkTimer h (clock w + delay) act]) (emitted w)).

Definition clearTimeout (h : nat) (w : Service) : Service :=
  set_timers (filter (fun t => handle t <> h) (timers w)) w.

Definition notifyChatsChanged (w : Service) : Service :=
  let w :=
    match chatUpdateTimer w with
    | Some h => clearTimeout h w
    | None => w
    end in
  let '(h, w) := setTimeout EmitChatsChanged 300 w in
  set_chatUpdateTimer (Some h) w.

(** The synchronous part of [connect]: the state is announced and a
    socket is made, on which the handlers below are registered. *)
Definition connect (w : Service) : Service :=
  set_sock true (emit (EvConnectionState Connecting) w).

(** *** Running the timers *)

(** The timer that is due first; of two timers due at the same time,
    the one set first. *)
Fixpoint earliest (ts : list Timer) : option Timer :=
  match ts with
  | [] => None
  | t :: rest =>
      match earliest rest with
      | Some u => if due u <? due t then Some u else Some t
      | None => Some t
      end
  end.

Definition fire (t : Timer) (w : Service) : Service :=
  let w := set_clock (Z.max (clock w) (due t)) (clearTimeout (handle t) w) in
  match action t with
  | EmitChatsChanged => set_chatUpdateTimer None (emit EvChatsChanged w)
  | Reconnect => connect w
  end.

Fixpoint runTimers (fuel : nat) (until : Z) (w : Service) : Service :=
  match fuel with
  | O => w
  | S fuel =>
      match earliest (timers w) with
      | Some t => if due t <=? until then runTimers fuel until (fire t w) else w
      | None => w
      end
  end.

(** Time passes until [until]: every timer due by then fires, in order.
    No callback sets a timer, so one round per pending timer is enough. *)
Definition advance (until : Z) (w : Service) : Service :=
  let w := runTimers (length (timers w)) until w in
  set_clock (Z.max (clock w) until) w.

(** [notifyChatsChanged] called when the clock shows [t], and a
    sequence of such calls at the given times. *)
Definition notifyAt (t : Z) (w : Service) : Service :=
  notifyChatsChanged (advance t w).

Definition burst (times : list Z) (w : Service) : Service :=
  foldl (fun w t => notifyAt t w) w times.

(** The times at which [chats-changed] was emitted. *)
Definition chatsChangedAt (w : Service) : list Z :=
  omap (fun ev => match ev.2 with EvChatsChanged => Some ev.1 | _ => None end)
       (emitted w).

(** Calls that follow [prev] and one another by less than the window. *)
Fixpoint rapid (prev : Z) (times : list Z) : Prop :=
  match times with
  | [] => True
  | t :: rest => prev <= t < prev + 300 /\ rapid t rest
  end.

(** The service has called [notifyChatsChanged] at [t] and nothing has
    happened since: its one timer is the debounce timer, due a window
    after [t]. *)
Definition armed (t : Z) (w : Service) : Prop :=
  clock w = t
  /\ exists h, chatUpdateTimer w = Some h
       /\ timers w = [mkTimer h (t + 300) EmitChatsChanged].

(** *** connection.update *)

Inductive WAConnectionState := ConnOpen | ConnConnecting | ConnClose.

#[global] Instance WAConnectionState_eq_dec : EqDecision WAConnectionState.
Proof. solve_decision. Defined.

Record ConnectionUpdate := mkConnectionUpdate {
  connection : option WAConnectionState;
  statusCode : option Z;      (* lastDisconnect?.error?.output?.statusCode *)
  qr : option string
}.

Section ConnectionEvents.

(** [DisconnectReason.loggedOut], a constant of the transport library. *)
Variable loggedOut : Z.

Definition onConnectionUpdate (update : ConnectionUpdate) (w : Service) : Service :=
  let w :=
    if JS.truthy_opt (qr update) then
      emit (EvQr (default "" (qr update))) (emit (EvConnectionState QRReady) w)
    else w in
  let w :=
    if bool_decide (connection update = Some ConnClose) then
      let shouldReconnect := negb (bool_decide (statusCode update = Some loggedOut)) in
      if shouldReconnect && (retryCount w <? maxRetries) then
        let w := set_retryCount (retryCount w + 1) w in
        let w := emit (EvConnectionState Connecting) w in
        snd (setTimeout Reconnect (Z.min (1000 * retryCount w) 10000) w)
      else
        emit (EvConnectionState Disconnected) w
    else w in
  if bool_decide (connection update = Some ConnOpen) then
    let w := set_retryCount 0 w in
    let w := emit (EvConnectionState Connected) w in
    emit EvReady w
  else w.

End ConnectionEvents.

(** A close signal with the given status code, and a run of close
    signals that no open signal interrupts. *)
Definition closeWith (code : option Z) : ConnectionUpdate :=
  mkConnectionUpdate (Some ConnClose) code None.

Definition closes (loggedOut : Z) (codes : list (option Z)) (w : Service) : Service :=
  foldl (fun w code => onConnectionUpdate loggedOut (closeWith code) w) w codes.

(** The connection state an observer holds, as [useWhatsApp] keeps it:
    [Disconnected] at first, then the state of the last
    [connection-state] event. *)
Definition observedState (w : Service) : ConnectionState :=
  foldl (fun st ev => match ev.2 with EvConnectionState s => s | _ => st end)
        Disconnected (emitted w).

#[global] Instance TimerAction_eq_dec : EqDecision TimerAction.
Proof. solve_decision. Defined.

(** The reconnects that are scheduled and have not run yet. *)
Definition pendingReconnects (w : Service) : list Timer :=
  filter (fun t => action t = Reconnect) (timers w).

(** *** Incoming messages *)

Module MessageKey.
Record t := mk {
  remoteJid : option string;
  fromMe : option bool;
  id : option string;
  participant : option string
}.
End MessageKey.

(** [messageTimestamp] is a number or a [Long]; a [Long] is an object,
    and truthy even when it is zero. *)
Inductive MessageTimestamp := TsNumber (n : Z) | TsLong (n : Z).

Module WAMessage.
Record t := mk {
  key : MessageKey.t;
  message : option WAMessageContent;
  messageTimestamp : option MessageTimestamp;
  pushName : option string;
  status : option Z
}.
End WAMessage.

Definition mapStatus (status : option Z) : MessageStatus :=
  match status with
  | Some 0 => Error
  | Some 1 => Pending
  | Some 2 => Sent
  | Some 3 => Delivered
  | Some 4 => Read
  | _ => Sent
  end.

(** [parseMessage]; [now] is what [Date.now()] returns. *)
Definition parseMessage (now : Z) (msg : WAMessage.t) : option Message :=
  let key := WAMessage.key msg in
  if negb (JS.truthy_opt (MessageKey.remoteJid key)) then None
  else
    let chatJid := default "" (MessageKey.remoteJid key) in
    let isFromMe := default false (MessageKey.fromMe key) in
    let senderJid :=
      if isFromMe then "me"
      else JS.or_default (MessageKey.participant key)
             (JS.or_default (MessageKey.remoteJid key) "") in
    let timestamp :=
      match WAMessage.messageTimestamp msg with
      | Some (TsNumber n) => if bool_decide (n = 0) then now else n * 1000
      | Some (TsLong n) => n * 1000
      | None => now
      end in
    let ex := extractContent (WAMessage.message msg) in
    let senderName :=
      if isFromMe then "You"
      else if JS.truthy_opt (WAMessage.pushName msg) then default "" (WAMessage.pushName msg)
      else jidToPhoneNumber senderJid in
    Some {| id := default ("msg-" ++ JS.number_to_string timestamp) (MessageKey.id key);
            chatJid := chatJid;
            senderJid := senderJid;
            senderName := senderName;
            body := ex_body ex;
            timestamp := timestamp;
            isFromMe := isFromMe;
            status := mapStatus (WAMessage.status msg);
            type := ex_type ex |}.

(** The body of the loop of the [messages.upsert] handler. *)
Definition onMessage (msg : WAMessage.t) (w : Service) : Service :=
  let key := WAMessage.key msg in
  if negb (JS.truthy_opt (MessageKey.remoteJid key)) then w
  else if bool_decide (MessageKey.remoteJid key = Some "status@broadcast") then w
  else
    match parseMessage (clock w) msg with
    | None => w
    | Some parsed =>
        if negb (JS.truthy (body parsed)) then w
        else
          let w :=
            if negb (isFromMe parsed) && JS.truthy_opt (WAMessage.pushName msg) then
              let senderJid :=
                JS.or_default (MessageKey.participant key)
                  (JS.or_default (MessageKey.remoteJid key) "") in
              if JS.truthy senderJid && negb (bool_decide (senderJid = "status@broadcast")) then
                with_db (upsertContact senderJid "" (default "" (WAMessage.pushName msg))) w
              else w
            else w in
          let chatJid := chatJid parsed in
          let resolvedName :=
            JS.or_default (getContactName chatJid (db w))
              (JS.or (senderName parsed) (jidToPhoneNumber chatJid)) in
          let chat :=
            {| jid := chatJid;
               name := if isFromMe parsed
                       then JS.or_default (getContactName chatJid (db w)) ""
                       else resolvedName;
               lastMessage :=
                 JS.or (body parsed) ("[" ++ MessageType_value (type parsed) ++ "]");
               lastMessageAt := timestamp parsed;
               unreadCount := 0;
               isGroup := isGroupJid chatJid |} in
          let w := with_db (upsertChat chat) w in
          let w := with_db (upsertMessage parsed) w in
          let w := if negb (isFromMe parsed) then with_db (incrementUnreadCount chatJid) w else w in
          let w := emit (EvMessage parsed) w in
          notifyChatsChanged w
    end.

(** The [messages.upsert] handler. *)
Definition onMessagesUpsert (msgs : list WAMessage.t) (w : Service) : Service :=
  foldl (fun w msg => onMessage msg w) w msgs.

(** *** Outbound send *)

(** What [await this.sock.sendMessage(jid, { text })] does: it throws,
    or returns nothing, or returns the sent message, of which [key.id]
    is read. *)
Inductive SendOutcome :=
  | SendThrows
  | SendNothing
  | SendOk (keyId : option string).

Definition sendMessage (jid text : string) (outcome : SendOutcome) (w : Service)
    : option Message * Service :=
  if negb (sock w) then (None, w)
  else
    match outcome with
    | SendThrows => (None, w)
    | SendNothing => (None, w)
    | SendOk keyId =>
        let msg :=
          {| id := JS.or_default keyId ("local-" ++ JS.number_to_string (clock w));
             chatJid := jid;
             senderJid := "me";
             senderName := "You";
             body := text;
             timestamp := clock w;
             isFromMe := true;
             status := Sent;
             type := Text |} in
        let w := with_db (upsertMessage msg) w in
        let chat :=
          {| jid := jid;
             name := "";
             lastMessage := text;
             lastMessageAt := timestamp msg;
             unreadCount := 0;
             isGroup := isGroupJid jid |} in
        let w := with_db (upsertChat chat) w in
        (Some msg, w)
    end.

Definition getChats (w : Service) : list Chat := getAllChats (db w).

(** ** src/services/whatsapp.ts: the other handlers *)

Module WAChat.
Record t := mk {
  id : option string;
  name : option string;
  conversationTimestamp : option MessageTimestamp;
  unreadCount : option Z
}.
End WAChat.

Module WAContact.
Record t := mk {
  id : option string;
  name : option string;
  notify : option string
}.
End WAContact.

(** [ts ? Number(ts) * 1000 : 0]. *)
Definition conversationTimestampMs (ts : option MessageTimestamp) : Z :=
  match ts with
  | Some (TsNumber n) => if bool_decide (n = 0) then 0 else n * 1000
  | Some (TsLong n) => n * 1000
  | None => 0
  end.

(** [!chat.id || chat.id === 'status@broadcast']. *)
Definition skippedId (id : option string) : bool :=
  negb (JS.truthy_opt id) || bool_decide (id = Some "status@broadcast").

(** The body of the loop of [chats.upsert], which is also the first
    loop of [messaging-history.set]. *)
Definition syncChat (chat : WAChat.t) (db : Db) : Db :=
  if skippedId (WAChat.id chat) then db
  else
    let id := default "" (WAChat.id chat) in
    upsertChat
      {| jid := id;
         name := JS.or_default (WAChat.name chat) (jidToPhoneNumber id);
         lastMessage := "";
         lastMessageAt := conversationTimestampMs (WAChat.conversationTimestamp chat);
         unreadCount := default 0 (WAChat.unreadCount chat);
         isGroup := isGroupJid id |} db.

(** The body of the loop of [chats.update]. *)
Definition updateChat (chat : WAChat.t) (db : Db) : Db :=
  if skippedId (WAChat.id chat) then db
  else
    let id := default "" (WAChat.id chat) in
    let db :=
      upsertChat
        {| jid := id;
           name := JS.or_default (WAChat.name chat) "";
           lastMessage := "";
           lastMessageAt := conversationTimestampMs (WAChat.conversationTimestamp chat);
           unreadCount := default 0 (WAChat.unreadCount chat);
           isGroup := isGroupJid id |} db in
    if JS.truthy_opt (WAChat.name chat)
    then updateChatName id (default "" (WAChat.name chat)) db
    else db.

(** The body of the loop of [contacts.upsert], which is also the second
    loop of [messaging-history.set]. *)
Definition syncContact (contact : WAContact.t) (db : Db) : Db :=
  if skippedId (WAContact.id contact) then db
  else
    upsertContact (default "" (WAContact.id contact))
      (JS.or_default (WAContact.name contact) "")
      (JS.or_default (WAContact.notify contact) "") db.

(** The body of the loop of [contacts.update]: only a missing
    identifier is skipped. *)
Definition updateContact (contact : WAContact.t) (db : Db) : Db :=
  if negb (JS.truthy_opt (WAContact.id contact)) then db
  else
    upsertContact (default "" (WAContact.id contact))
      (JS.or_default (WAContact.name contact) "")
      (JS.or_default (WAContact.notify contact) "") db.

(** The body of the third loop of [messaging-history.set]; [now] is
    what [Date.now()] returns. *)
Definition syncMessage (now : Z) (msg : WAMessage.t) (db : Db) : Db :=
  let key := WAMessage.key msg in
  if skippedId (MessageKey.remoteJid key) then db
  else
    match parseMessage now msg with
    | None => db
    | Some parsed =>
        if negb (JS.truthy (body parsed)) then db
        else
          let db :=
            if negb (isFromMe parsed) && JS.truthy_opt (WAMessage.pushName msg) then
              let senderJid :=
                JS.or_default (MessageKey.participant key)
                  (JS.or_default (MessageKey.remoteJid key) "") in
              if JS.truthy senderJid then
                upsertContact senderJid "" (default "" (WAMessage.pushName msg)) db
              else db
            else db in
          let chatJid := chatJid parsed in
          let resolvedName :=
            JS.or_default (getContactName chatJid db)
              (JS.or (senderName parsed) (jidToPhoneNumber chatJid)) in
          let chat :=
            {| jid := chatJid;
               name := if isFromMe parsed
                       then JS.or_default (getContactName chatJid db) ""
                       else resolvedName;
               lastMessage :=
                 JS.or (body parsed) ("[" ++ MessageType_value (type parsed) ++ "]");
               lastMessageAt := timestamp parsed;
               unreadCount := 0;
               isGroup := isGroupJid chatJid |} in
          upsertMessage parsed (upsertChat chat db)
    end.

Record HistorySet := mkHistorySet {
  syncedChats : list WAChat.t;
  syncedContacts : list WAContact.t;
  syncedMessages : list WAMessage.t
}.

(** Running the body of a [for ... of] loop over a list. *)
Definition forEach {A S} (body : A -> S -> S) (items : list A) (s : S) : S :=
  foldl (fun s item => body item s) s items.

(** The [messaging-history.set] handler. *)
Definition onHistorySet (h : HistorySet) (w : Service) : Service :=
  let w := with_db (forEach syncChat (syncedChats h)) w in
  let w := with_db (forEach syncContact (syncedContacts h)) w in
  let w := with_db (forEach (syncMessage (clock w)) (syncedMessages h)) w in
  notifyChatsChanged w.

(** The [chats.upsert], [chats.update], [contacts.upsert] and
    [contacts.update] handlers. *)
Definition onChatsUpsert (chats : list WAChat.t) (w : Service) : Service :=
  notifyChatsChanged (with_db (forEach syncChat chats) w).

Definition onChatsUpdate (chats : list WAChat.t) (w : Service) : Service :=
  notifyChatsChanged (with_db (forEach updateChat chats) w).

Definition onContactsUpsert (contacts : list WAContact.t) (w : Service) : Service :=
  notifyChatsChanged (with_db (forEach syncContact contacts) w).

Definition onContactsUpdate (contacts : list WAContact.t) (w : Service) : Service :=
  notifyChatsChanged (with_db (forEach updateContact contacts) w).

(** [disconnect]: the socket is ended and forgotten. *)
Definition disconnect (w : Service) : Service := set_sock false w.

(** [getMessages]. *)
Definition getMessages (chatJid : string) (limit : nat) (w : Service) : list Message :=
  getMessagesForChat chatJid limit (db w).

(** *** The engine as a whole

    What can happen to a service: a call of one of its methods, an
    event of the socket, the store call the interface makes when a
    conversation is opened, and the passing of time. *)
Inductive Input :=
  | InConnect
  | InDisconnect
  | InConnectionUpdate (update : ConnectionUpdate)
  | InMessagesUpsert (msgs : list WAMessage.t)
  | InHistorySet (h : HistorySet)
  | InChatsUpsert (chats : list WAChat.t)
  | InChatsUpdate (chats : list WAChat.t)
  | InContactsUpsert (contacts : list WAContact.t)
  | InContactsUpdate (contacts : list WAContact.t)
  | InSendMessage (jid text : string) (outcome : SendOutcome)
  | InResetUnread (jid : string)
  | InAdvance (until : Z).

Definition step (loggedOut : Z) (i : Input) (w : Service) : Service :=
  match i with
  | InConnect => connect w
  | InDisconnect => disconnect w
  | InConnectionUpdate update => onConnectionUpdate loggedOut update w
  | InMessagesUpsert msgs => onMessagesUpsert msgs w
  | InHistorySet h => onHistorySet h w
  | InChatsUpsert chats => onChatsUpsert chats w
  | InChatsUpdate chats => onChatsUpdate chats w
  | InContactsUpsert contacts => onContactsUpsert contacts w
  | InContactsUpdate contacts => onContactsUpdate contacts w
  | InSendMessage jid text outcome => snd (sendMessage jid text outcome w)
  | InResetUnread jid => with_db (resetUnreadCount jid) w
  | InAdvance until => advance until w
  end.

Definition run (loggedOut : Z) (inputs : list Input) (w : Service) : Service :=
  foldl (fun w i => step loggedOut i w) w inputs.

(** *** The two message loops, part by part

    The loop of [messages.upsert] and the third loop of
    [messaging-history.set] share their guard, the capture of the push
    name and the conversation they write; the lemmas [onMessage_parts]
    and [syncMessage_parts] below show that the handlers above are made
    of these parts. *)

(** The message the loop goes on with, unless it [continue]s. *)
Definition retained (now : Z) (msg : WAMessage.t) : option Message :=
  if skippedId (MessageKey.remoteJid (WAMessage.key msg)) then None
  else
    match parseMessage now msg with
    | Some parsed => if JS.truthy (body parsed) then Some parsed else None
    | None => None
    end.

(** The push name of the sender goes to the notify field of its
    contact; only the live loop leaves out [status@broadcast] here. *)
Definition capturePushName (live : bool) (msg : WAMessage.t) (parsed : Message)
    (db : Db) : Db :=
  if negb (isFromMe parsed) && JS.truthy_opt (WAMessage.pushName msg) then
    let key := WAMessage.key msg in
    let senderJid :=
      JS.or_default (MessageKey.participant key)
        (JS.or_default (MessageKey.remoteJid key) "") in
    if JS.truthy senderJid
       && negb (live && bool_decide (senderJid = "status@broadcast")) then
      upsertContact senderJid "" (default "" (WAMessage.pushName msg)) db
    else db
  else db.

(** The conversation written for a message. *)
Definition chatOfMessage (parsed : Message) (db : Db) : Chat :=
  let chatJid := chatJid parsed in
  {| jid := chatJid;
     name := if isFromMe parsed
             then JS.or_default (getContactName chatJid db) ""
             else JS.or_default (getContactName chatJid db)
                    (JS.or (senderName parsed) (jidToPhoneNumber chatJid));
     lastMessage := JS.or (body parsed) ("[" ++ MessageType_value (type parsed) ++ "]");
     lastMessageAt := timestamp parsed;
     unreadCount := 0;
     isGroup := isGroupJid chatJid |}.

(** What the live loop writes for a message it goes on with. *)
Definition storeLive (msg : WAMessage.t) (parsed : Message) (db : Db) : Db :=
  let db := capturePushName true msg parsed db in
  let db := upsertMessage parsed (upsertChat (chatOfMessage parsed db) db) in
  if negb (isFromMe parsed) then incrementUnreadCount (chatJid parsed) db else db.

(** What the history loop writes for a message it goes on with. *)
Definition storeSynced (msg : WAMessage.t) (parsed : Message) (db : Db) : Db :=
  let db := capturePushName false msg parsed db in
  upsertMessage parsed (upsertChat (chatOfMessage parsed db) db).

Definition isSend (i : Input) : bool :=
  match i with
  | InSendMessage _ _ _ => true
  | _ => false
  end.

(** *** Conditions on the store and on the timers *)

(** Every stored message belongs to a stored conversation. *)
Definition messagesHaveChats (db : Db) : Prop :=
  forall k row, messages db !! k = Some row -> is_Some (chats db !! chat_jid row).


(** The pending timers that will emit [chats-changed]. *)
Definition pendingNotifications (w : Service) : list Timer :=
  filter (fun t => action t = EmitChatsChanged) (timers w).

(** The handles of the pending timers are distinct and below the next
    handle, and the pending [chats-changed] timers are the one that
    [chatUpdateTimer] holds, if it holds one. *)
Definition timersOk (w : Service) : Prop :=
  Forall (fun t => (handle t < nextHandle w)%nat) (timers w)
  /\ NoDup (handle <$> timers w)
  /\ handle <$> pendingNotifications w = option_list (chatUpdateTimer w).

(** The store [db'] has what the store [db] has: every conversation is
    still there, with a timestamp that is not lower and a name if it
    had one; every message is still there; every contact that had an
    addressbook name or a notify name still has one. *)
Definition storeGrows (db db' : Db) : Prop :=
  (forall j row, chats db !! j = Some row ->
     exists row', chats db' !! j = Some row'
       /\ last_message_at row <= last_message_at row'
       /\ (c_name row <> "" -> c_name row' <> ""))
  /\ (forall k, is_Some (messages db !! k) -> is_Some (messages db' !! k))
  /\ (forall j, addressbookName j db <> "" -> addressbookName j db' <> "")
  /\ (forall j, notifyName j db <> "" -> notifyName j db' <> "").

(** No pending timer is due later than its delay allows: a reconnect
    at most 5000 ms from now, a [chats-changed] at most 300 ms. *)
Definition timersSoon (w : Service) : Prop :=
  Forall (fun t => due t <= clock w + match action t with
                                     | Reconnect => 5000
                                     | EmitChatsChanged => 300
                                     end) (timers w).

(** The state the service keeps for retries and timers is in order. *)
Definition controlOk (w : Service) : Prop :=
  0 <= retryCount w <= maxRetries /\ timersOk w /\ timersSoon w.

(** ** What the interface does with the lists it gets *)

(** *** src/utils/formatters.ts: truncate

    A JavaScript string is a sequence of UTF-16 code units and
    [length], [slice] and [+] count in code units; the code unit is a
    parameter here, and so is the one of ['…']. *)

(** [xs.slice(start, stop)] on an array or a string. *)
Definition slice {A} (start stop : Z) (xs : list A) : list A :=
  let len := Z.of_nat (length xs) in
  let index i := if i <? 0 then Z.max (len + i) 0 else Z.min i len in
  let from := index start in
  let to := index stop in
  take (Z.to_nat (to - from)) (drop (Z.to_nat from) xs).

Definition truncate {A} (ellipsis : A) (str : list A) (maxLength : Z) : list A :=
  if Z.of_nat (length str) <=? maxLength then str
  else (slice 0 (maxLength - 1) str ++ [ellipsis])%list.

(** *** src/components/ChatList.tsx *)

(** [chat.name || chat.jid.split('@')[0] || chat.jid]. *)
Definition displayName (chat : Chat) : string :=
  JS.or (name chat) (JS.or (before_at (jid chat)) (jid chat)).

(** The first row of the scroll window, and the rows in it. *)
Definition startIndex (selectedIndex maxVisible : Z) : Z :=
  if selectedIndex >=? maxVisible then selectedIndex - maxVisible + 1 else 0.

Definition visibleChats (chats : list Chat) (selectedIndex maxVisible : Z) : list Chat :=
  let start := startIndex selectedIndex maxVisible in
  slice start (start + maxVisible) chats.

(** *** src/hooks/useWhatsApp.ts: useChatNavigation *)

(** [chats.findIndex((c) => c.jid === jid)]. *)
Fixpoint findIndex (jid0 : string) (chats : list Chat) : Z :=
  match chats with
  | [] => -1
  | c :: rest =>
      if bool_decide (jid c = jid0) then 0
      else let i := findIndex jid0 rest in if i <? 0 then -1 else i + 1
  end.

(** [xs[i] ?? null]. *)
Definition at_index {A} (xs : list A) (i : Z) : option A :=
  if i <? 0 then None else xs !! Z.to_nat i.

Definition selectedIndex (selectedJid : option string) (chats : list Chat) : Z :=
  if JS.truthy_opt selectedJid
  then Z.max 0 (findIndex (default "" selectedJid) chats)
  else 0.

Definition selectedChat (selectedJid : option string) (chats : list Chat) : option Chat :=
  at_index chats (selectedIndex selectedJid chats).

(** The selection after [moveUp] and after [moveDown]. *)
Definition moveUp (selectedJid : option string) (chats : list Chat) : option string :=
  let newIndex := Z.max 0 (selectedIndex selectedJid chats - 1) in
  match at_index chats newIndex with
  | Some c => Some (jid c)
  | None => selectedJid
  end.

Definition moveDown (selectedJid : option string) (chats : list Chat) : option string :=
  let newIndex :=
    Z.min (Z.of_nat (length chats) - 1) (selectedIndex selectedJid chats + 1) in
  match at_index chats newIndex with
  | Some c => Some (jid c)
  | None => selectedJid
  end.

(** * Properties *)

(** ** JavaScript values *)

Lemma truthy_true s : JS.truthy s = true <-> s <> "".
Proof. destruct s; simpl; split; congruence. Qed.

Lemma truthy_false s : JS.truthy s = false <-> s = "".
Proof. destruct s; simpl; split; congruence. Qed.

Lemma or_truthy a b : JS.truthy a = true -> JS.or a b = a.
Proof. unfold JS.or. by intros ->. Qed.

Lemma or_empty b : JS.or "" b = b.
Proof. reflexivity. Qed.

(** ** The store *)

Section StoreFacts.

Lemma lookup_insert_on_conflict {V} key (x : V) merge table :
  insert_on_conflict key x merge table !! key =
  Some (match table !! key with
        | Some stored => merge stored x
        | None => x
        end).
Proof.
  unfold insert_on_conflict.
  destruct (table !! key); by rewrite lookup_insert_eq.
Qed.

Lemma lookup_insert_on_conflict_ne {V} key key' (x : V) merge table :
  key <> key' ->
  insert_on_conflict key x merge table !! key' = table !! key'.
Proof.
  intros Hne. unfold insert_on_conflict.
  destruct (table !! key); by rewrite lookup_insert_ne.
Qed.

Lemma contacts_upsertContact jid name notify db :
  contacts (upsertContact jid name notify db) !! jid =
  Some (match contacts db !! jid with
        | Some stored => merge_contact stored (mkContactRow name notify)
        | None => mkContactRow name notify
        end).
Proof. apply lookup_insert_on_conflict. Qed.

Lemma chats_upsertChat chat db :
  chats (upsertChat chat db) !! jid chat =
  Some (match chats db !! jid chat with
        | Some stored => merge_chat stored (chat_row chat)
        | None => chat_row chat
        end).
Proof. apply lookup_insert_on_conflict. Qed.

Lemma chats_upsertChat_ne chat db j :
  jid chat <> j -> chats (upsertChat chat db) !! j = chats db !! j.
Proof. apply lookup_insert_on_conflict_ne. Qed.

Lemma merge_contact_twice stored x :
  merge_contact (merge_contact stored x) x = merge_contact stored x.
Proof.
  unfold merge_contact; simpl.
  by destruct (JS.truthy (ct_name x)), (JS.truthy (ct_notify x)).
Qed.

Lemma merge_contact_same x : merge_contact x x = x.
Proof.
  destruct x as [n f]. unfold merge_contact; simpl.
  by destruct (JS.truthy n), (JS.truthy f).
Qed.

Lemma upsertContact_twice jid name notify db :
  upsertContact jid name notify (upsertContact jid name notify db) =
  upsertContact jid name notify db.
Proof.
  destruct db as [cts chs msgs].
  unfold upsertContact, set_contacts; simpl. f_equal.
  unfold insert_on_conflict at 1.
  rewrite lookup_insert_on_conflict.
  unfold insert_on_conflict.
  destruct (cts !! jid) as [stored|].
  - by rewrite merge_contact_twice, insert_insert_eq.
  - by rewrite merge_contact_same, insert_insert_eq.
Qed.

End StoreFacts.

(** C5. A contact upsert merges each of the two name fields on its own:
    an empty incoming addressbook name keeps the stored one, an empty
    incoming notify name keeps the stored one, a non-empty incoming
    value of either field replaces that field whatever the other field
    carries, and the same upsert applied twice gives the store it gives
    when applied once. *)
Theorem upsertContact_nonempty_wins (jid name notify : string) (db : Db) :
  (forall stored, contacts db !! jid = Some stored ->
     exists row, contacts (upsertContact jid name notify db) !! jid = Some row
       /\ (name = "" -> ct_name row = ct_name stored)
       /\ (notify = "" -> ct_notify row = ct_notify stored)
       /\ (name <> "" -> ct_name row = name)
       /\ (notify <> "" -> ct_notify row = notify))
  /\ upsertContact jid name notify (upsertContact jid name notify db)
     = upsertContact jid name notify db.
Proof.
  split; [|apply upsertContact_twice].
  intros stored Hstored. eexists. split.
  - rewrite contacts_upsertContact, Hstored. reflexivity.
  - unfold merge_contact; simpl. repeat split.
    + by intros ->.
    + by intros ->.
    + intros Hne. apply truthy_true in Hne. by rewrite Hne.
    + intros Hne. apply truthy_true in Hne. by rewrite Hne.
Qed.

(** A stored addressbook name survives an upsert that carries only a
    notify name. *)
Lemma upsertContact_nonempty_wins_witness :
  let db := upsertContact "a@s.whatsapp.net" "Alice" "" emptyDb in
  contacts db !! "a@s.whatsapp.net" = Some (mkContactRow "Alice" "")
  /\ exists row,
       contacts (upsertContact "a@s.whatsapp.net" "" "Al" db) !! "a@s.whatsapp.net" = Some row
       /\ ct_name row = "Alice" /\ ct_notify row = "Al".
Proof.
  intros db.
  assert (Hdb : contacts db !! "a@s.whatsapp.net" = Some (mkContactRow "Alice" ""))
    by (vm_compute; reflexivity).
  split; [exact Hdb|].
  destruct (upsertContact_nonempty_wins "a@s.whatsapp.net" "" "Al" db) as [Hmerge _].
  destruct (Hmerge _ Hdb) as (row & Hrow & Hname & _ & _ & Hnotify).
  exists row. split; [exact Hrow|]. split.
  - apply Hname. reflexivity.
  - apply Hnotify. discriminate.
Defined.

(** ** Conversation upserts *)

Lemma merge_chat_preview_at stored x :
  last_message_at (merge_chat stored x)
  = Z.max (last_message_at x) (last_message_at stored)
  /\ last_message (merge_chat stored x)
     = if last_message_at x >? last_message_at stored
       then last_message x else last_message stored.
Proof. by split. Qed.

(** An upsert that is not strictly newer than the stored row keeps the
    stored preview and timestamp. *)
Lemma merge_chat_not_newer stored x :
  last_message_at x <= last_message_at stored ->
  last_message (merge_chat stored x) = last_message stored
  /\ last_message_at (merge_chat stored x) = last_message_at stored.
Proof.
  intros Hle. unfold merge_chat; simpl.
  rewrite Z.gtb_ltb. destruct (Z.ltb_spec (last_message_at stored) (last_message_at x)); lia || split; [done | lia].
Qed.

(** A strictly newer upsert replaces both. *)
Lemma merge_chat_newer stored x :
  last_message_at stored < last_message_at x ->
  last_message (merge_chat stored x) = last_message x
  /\ last_message_at (merge_chat stored x) = last_message_at x.
Proof.
  intros Hlt. unfold merge_chat; simpl.
  rewrite Z.gtb_ltb. destruct (Z.ltb_spec (last_message_at stored) (last_message_at x)); lia || split; [done | lia].
Qed.

(** C1, as stated, fails on a store that already holds a newer row: with
    conversation A stored at timestamp 5000, the upserts at 1000 and at
    2000 leave timestamp 5000 and the old preview, in both orders. *)
Lemma upsertChat_max_counterexample :
  let db := upsertChat (mkChat "A" "Alice" "old" 5000 0 false) emptyDb in
  let u1 := mkChat "A" "" "first" 1000 0 false in
  let u2 := mkChat "A" "" "second" 2000 0 false in
  lastMessageAt u1 < lastMessageAt u2
  /\ ~ (last_message_at <$> chats (upsertChat u2 (upsertChat u1 db)) !! "A"
        = Some (Z.max (lastMessageAt u1) (lastMessageAt u2)))
  /\ ~ (last_message <$> chats (upsertChat u1 (upsertChat u2 db)) !! "A"
        = Some (lastMessage u2))
  /\ chats (upsertChat u2 (upsertChat u1 db)) !! "A"
     = Some (mkChatRow "Alice" "old" 5000 0 0).
Proof.
  repeat split; try (vm_compute; congruence).
Qed.

(** C1, amended. Two upserts of one conversation with timestamps
    [t1 < t2] leave the same preview and the same timestamp in either
    order. When the conversation is not stored yet, or is stored with a
    timestamp below [t2], these are [max t1 t2] and the preview of the
    upsert that carries it; when it is stored with a timestamp of [t2]
    or more, the stored preview and timestamp stay. An upsert whose
    timestamp is not strictly greater than the stored one changes
    neither the stored preview nor the stored timestamp. *)
Theorem upsertChat_order_independent (db : Db) (u1 u2 : Chat) :
  jid u1 = jid u2 ->
  lastMessageAt u1 < lastMessageAt u2 ->
  (exists r12 r21,
      chats (upsertChat u2 (upsertChat u1 db)) !! jid u1 = Some r12
      /\ chats (upsertChat u1 (upsertChat u2 db)) !! jid u1 = Some r21
      /\ last_message_at r12 = last_message_at r21
      /\ last_message r12 = last_message r21
      /\ ((forall stored, chats db !! jid u1 = Some stored ->
             last_message_at stored < lastMessageAt u2) ->
          last_message_at r12 = Z.max (lastMessageAt u1) (lastMessageAt u2)
          /\ last_message r12 = lastMessage u2)
      /\ (forall stored, chats db !! jid u1 = Some stored ->
             lastMessageAt u2 <= last_message_at stored ->
          last_message_at r12 = last_message_at stored
          /\ last_message r12 = last_message stored))
  /\ (forall u stored,
        chats db !! jid u = Some stored ->
        lastMessageAt u <= last_message_at stored ->
        exists r, chats (upsertChat u db) !! jid u = Some r
          /\ last_message r = last_message stored
          /\ last_message_at r = last_message_at stored).
Proof.
  intros Hjid Hlt. split.
  - do 2 eexists.
    split; [rewrite Hjid, chats_upsertChat, <- Hjid, chats_upsertChat; reflexivity|].
    split; [rewrite chats_upsertChat, Hjid, chats_upsertChat; reflexivity|].
    rewrite Hjid.
    destruct (chats db !! jid u2) as [stored|]; unfold merge_chat, chat_row; simpl;
      rewrite ?Z.gtb_ltb;
      repeat match goal with
             | |- context [Z.ltb ?a ?b] => destruct (Z.ltb_spec a b); try lia
             end;
      (split; [lia|]); (split; [reflexivity || lia|]); split.
    all: try (intros Hnew; try specialize (Hnew _ eq_refl); split; [lia | reflexivity || lia]).
    all: try (intros st Hst Hge; inversion Hst; subst; split; [lia | reflexivity || lia]).
    all: try (intros st Hst; discriminate).
  - intros u stored Hstored Hle. eexists.
    split; [rewrite chats_upsertChat, Hstored; reflexivity|].
    by apply merge_chat_not_newer.
Qed.

(** On a store without the conversation, both orders end at timestamp
    2000 with the preview sent at 2000. *)
Lemma upsertChat_order_independent_witness :
  let u1 := mkChat "A" "Alice" "hi" 1000 0 false in
  let u2 := mkChat "A" "" "there" 2000 0 false in
  jid u1 = jid u2 /\ lastMessageAt u1 < lastMessageAt u2
  /\ exists r12 r21,
       chats (upsertChat u2 (upsertChat u1 emptyDb)) !! "A" = Some r12
       /\ chats (upsertChat u1 (upsertChat u2 emptyDb)) !! "A" = Some r21
       /\ last_message_at r12 = last_message_at r21
       /\ last_message r12 = last_message r21.
Proof.
  intros u1 u2.
  assert (Hjid : jid u1 = jid u2) by reflexivity.
  assert (Hlt : lastMessageAt u1 < lastMessageAt u2) by (simpl; lia).
  split; [exact Hjid|]. split; [exact Hlt|].
  destruct (upsertChat_order_independent emptyDb u1 u2 Hjid Hlt)
    as [(r12 & r21 & H12 & H21 & Hat & Hmsg & _) _].
  exists r12, r21. repeat split; assumption.
Defined.

(** ** Message redelivery *)

Section MessageCount.

Implicit Types (db : Db) (m : Message) (c : string).

Lemma messages_upsertMessage m db :
  messages (upsertMessage m db) !! id m = Some (message_row m).
Proof. apply lookup_insert_eq. Qed.

Lemma messages_upsertMessage_ne m db k :
  k <> id m -> messages (upsertMessage m db) !! k = messages db !! k.
Proof. intros Hne. by apply lookup_insert_ne. Qed.

Lemma row_message_row m : row_message (id m) (message_row m) = m.
Proof. destruct m as [i c s n b t [] st ty]; reflexivity. Qed.

Lemma lookup_messagesOfChat c db k :
  messagesOfChat c db !! k
  = if storedIn c k db then messages db !! k else None.
Proof.
  unfold messagesOfChat, storedIn. rewrite map_lookup_filter.
  destruct (messages db !! k) as [row|]; simpl; [|reflexivity].
  case_guard; case_bool_decide; simplify_eq/=; congruence.
Qed.

(** How an upsert moves the count of a conversation: the row stored
    under the identifier leaves the conversation it was in, and the new
    row enters the conversation it names. *)
Lemma messageCount_upsertMessage c m db :
  (messageCount c (upsertMessage m db) + (if storedIn c (id m) db then 1 else 0)
   = messageCount c db + (if bool_decide (chatJid m = c) then 1 else 0))%nat.
Proof.
  unfold messageCount.
  pose proof (lookup_messagesOfChat c db (id m)) as Hlook.
  unfold messagesOfChat in *. unfold upsertMessage, set_messages; simpl.
  rewrite map_filter_insert. simpl.
  case_decide as Hin; case_bool_decide as Hc; try congruence.
  - rewrite map_size_insert, Hlook.
    destruct (storedIn c (id m) db) eqn:Hst; [|simpl; lia].
    unfold storedIn in Hst. apply bool_decide_eq_true in Hst.
    destruct (messages db !! id m); simplify_eq/=. lia.
  - rewrite map_filter_delete, map_size_delete, Hlook.
    destruct (storedIn c (id m) db) eqn:Hst; [|simpl; lia].
    unfold storedIn in Hst. apply bool_decide_eq_true in Hst.
    destruct (messages db !! id m) as [row|] eqn:Hrow; simplify_eq/=.
    assert (size (filter (λ kv : string * MessageRow, chat_jid kv.2 = chat_jid row)
                         (messages db)) <> 0%nat); [|lia].
    apply (map_size_ne_0_lookup_2 _ (id m)). rewrite Hlook. eauto.
Qed.

(** The message window of a conversation holds all its rows, up to the
    limit. *)
Lemma length_getMessagesForChat c limit db :
  length (getMessagesForChat c limit db) = Nat.min limit (messageCount c db).
Proof.
  unfold getMessagesForChat, messageCount.
  rewrite length_fmap, merge_sort_Permutation, length_take,
    merge_sort_Permutation, length_map_to_list. reflexivity.
Qed.

End MessageCount.

(** C4, as stated, fails when the redelivered identifier is stored in
    another conversation: the row moves, so the first conversation
    loses a message and the second gains one. *)
Lemma upsertMessage_count_counterexample :
  let stored := mkMessage "X" "A" "A" "Alice" "hi" 1000 false Delivered Text in
  let m := mkMessage "X" "B" "B" "Bob" "hi" 1000 false Read Text in
  let db := upsertMessage stored emptyDb in
  is_Some (messages db !! id m)
  /\ messageCount "A" db = 1%nat
  /\ messageCount "A" (upsertMessage m db) = 0%nat
  /\ messageCount "B" db = 0%nat
  /\ messageCount "B" (upsertMessage m db) = 1%nat
  /\ ~ (forall c, messageCount c (upsertMessage m db) = messageCount c db).
Proof.
  assert (Hbefore : messageCount "A"
            (upsertMessage (mkMessage "X" "A" "A" "Alice" "hi" 1000 false Delivered Text)
                           emptyDb) = 1%nat) by (vm_compute; reflexivity).
  assert (Hafter : messageCount "A"
            (upsertMessage (mkMessage "X" "B" "B" "Bob" "hi" 1000 false Read Text)
               (upsertMessage (mkMessage "X" "A" "A" "Alice" "hi" 1000 false Delivered Text)
                              emptyDb)) = 0%nat) by (vm_compute; reflexivity).
  split; [eexists; vm_compute; reflexivity|].
  split; [exact Hbefore|]. split; [exact Hafter|].
  split; [vm_compute; reflexivity|]. split; [vm_compute; reflexivity|].
  intros Hall. specialize (Hall "A"). cbv zeta in Hall.
  rewrite Hbefore, Hafter in Hall. discriminate Hall.
Qed.

(** C4, amended. When the identifier of [m] is already stored,
    [upsertMessage m] replaces that row by the row of [m], status
    included, leaves every other row alone and leaves the number of
    stored messages unchanged; the count of every conversation is
    unchanged when [m] names the conversation of the stored row, and
    the count of every conversation other than these two is unchanged
    in any case. With a fresh identifier, exactly one row is added, to
    the conversation [m] names. *)
Theorem upsertMessage_replaces (db : Db) (m : Message) :
  (forall stored, messages db !! id m = Some stored ->
     messages (upsertMessage m db) !! id m = Some (message_row m)
     /\ m_status <$> messages (upsertMessage m db) !! id m = Some (status m)
     /\ (forall k, k <> id m -> messages (upsertMessage m db) !! k = messages db !! k)
     /\ size (messages (upsertMessage m db)) = size (messages db)
     /\ (chat_jid stored = chatJid m ->
         forall c, messageCount c (upsertMessage m db) = messageCount c db)
     /\ (forall c, c <> chat_jid stored -> c <> chatJid m ->
         messageCount c (upsertMessage m db) = messageCount c db))
  /\ (messages db !! id m = None ->
     messages (upsertMessage m db) !! id m = Some (message_row m)
     /\ size (messages (upsertMessage m db)) = S (size (messages db))
     /\ messageCount (chatJid m) (upsertMessage m db) = S (messageCount (chatJid m) db)
     /\ (forall c, c <> chatJid m ->
         messageCount c (upsertMessage m db) = messageCount c db)).
Proof.
  split.
  - intros stored Hstored.
    split; [apply messages_upsertMessage|].
    split; [by rewrite messages_upsertMessage|].
    split; [intros k Hk; by apply messages_upsertMessage_ne|].
    split; [apply map_size_insert_Some; rewrite Hstored; eauto|].
    split.
    + intros Hsame c. pose proof (messageCount_upsertMessage c m db) as Hcount.
      unfold storedIn in Hcount. rewrite Hstored in Hcount. simpl in Hcount.
      rewrite Hsame in Hcount.
      repeat case_bool_decide; simplify_eq/=; lia.
    + intros c Hc1 Hc2. pose proof (messageCount_upsertMessage c m db) as Hcount.
      unfold storedIn in Hcount. rewrite Hstored in Hcount. simpl in Hcount.
      repeat case_bool_decide; simplify_eq/=; lia.
  - intros Hfresh.
    split; [apply messages_upsertMessage|].
    split; [by apply map_size_insert_None|].
    split.
    + pose proof (messageCount_upsertMessage (chatJid m) m db) as Hcount.
      unfold storedIn in Hcount. rewrite Hfresh in Hcount. simpl in Hcount.
      repeat case_bool_decide; simplify_eq/=; lia.
    + intros c Hc. pose proof (messageCount_upsertMessage c m db) as Hcount.
      unfold storedIn in Hcount. rewrite Hfresh in Hcount. simpl in Hcount.
      repeat case_bool_decide; simplify_eq/=; lia.
Qed.

(** A delivered message that comes again as read: one row, now read. *)
Lemma upsertMessage_replaces_witness :
  let stored := mkMessage "X" "A" "A" "Alice" "hi" 1000 false Delivered Text in
  let m := mkMessage "X" "A" "A" "Alice" "hi" 1000 false Read Text in
  let db := upsertMessage stored emptyDb in
  messages db !! id m = Some (message_row stored)
  /\ chat_jid (message_row stored) = chatJid m
  /\ m_status <$> messages (upsertMessage m db) !! id m = Some Read
  /\ messageCount "A" (upsertMessage m db) = messageCount "A" db.
Proof.
  intros stored m db.
  assert (Hdb : messages db !! id m = Some (message_row stored))
    by exact (messages_upsertMessage stored emptyDb).
  split; [exact Hdb|]. split; [reflexivity|].
  destruct (upsertMessage_replaces db m) as [Hre _].
  destruct (Hre _ Hdb) as (_ & Hstatus & _ & _ & Hcount & _).
  split; [exact Hstatus|]. apply Hcount. reflexivity.
Defined.

(** ** Display names in the conversation list *)

Lemma getAllChats_row db c :
  c ∈ getAllChats db ->
  exists row, chats db !! jid c = Some row
    /\ name c = JS.or (contact_name (jid c) db) (c_name row).
Proof.
  unfold getAllChats. intros Hin.
  apply list_elem_of_fmap in Hin as [[j row] [-> Hin]].
  rewrite merge_sort_Permutation in Hin.
  apply elem_of_map_to_list in Hin.
  exists row. by split.
Qed.

Lemma length_getAllChats db : length (getAllChats db) = size (chats db).
Proof.
  unfold getAllChats.
  by rewrite length_fmap, merge_sort_Permutation, length_map_to_list.
Qed.

Lemma contact_name_chain j db :
  contact_name j db = firstNonEmpty [addressbookName j db; notifyName j db].
Proof.
  unfold contact_name, addressbookName, notifyName.
  destruct (contacts db !! j) as [[n f]|]; simpl; [|reflexivity].
  destruct (JS.truthy n); simpl; [reflexivity|].
  by destruct (JS.truthy f).
Qed.

(** C9, as stated, fails for a conversation stored without a name and
    without a contact, such as the one a first outbound send creates:
    the list returns the empty name, not the name derived from the
    identifier. *)
Lemma getAllChats_fallback_counterexample :
  let w := connect (newService emptyDb 5000) in
  let w' := snd (sendMessage "4915@s.whatsapp.net" "ok" (SendOk (Some "ID1")) w) in
  getChats w' = [mkChat "4915@s.whatsapp.net" "" "ok" 5000 0 false]
  /\ jidToPhoneNumber "4915@s.whatsapp.net" = "+4915"
  /\ ~ (forall c, c ∈ getChats w' -> name c = jidToPhoneNumber (jid c)).
Proof.
  assert (Hlist : getChats (snd (sendMessage "4915@s.whatsapp.net" "ok" (SendOk (Some "ID1"))
                                   (connect (newService emptyDb 5000))))
                  = [mkChat "4915@s.whatsapp.net" "" "ok" 5000 0 false])
    by (vm_compute; reflexivity).
  split; [exact Hlist|]. split; [reflexivity|].
  intros Hall. cbv zeta in Hall. rewrite Hlist in Hall.
  specialize (Hall _ (list_elem_of_here _ _)). discriminate Hall.
Qed.

(** C9, amended. Every conversation that [getAllChats] returns has a
    stored row, and its name is the first non-empty value of the chain
    addressbook name, notify name, stored name of the conversation; when
    the three are empty or absent the returned name is the empty string
    ([getAllChats] derives nothing from the identifier). The list has
    one entry per stored conversation, so no conversation makes it
    fail. *)
Theorem getAllChats_name_priority (db : Db) (c : Chat) :
  c ∈ getAllChats db ->
  (exists row, chats db !! jid c = Some row
     /\ name c = firstNonEmpty [addressbookName (jid c) db; notifyName (jid c) db; c_name row]
     /\ (addressbookName (jid c) db = "" -> notifyName (jid c) db = "" ->
         c_name row = "" -> name c = ""))
  /\ length (getAllChats db) = size (chats db).
Proof.
  intros Hin. split; [|apply length_getAllChats].
  apply getAllChats_row in Hin as (row & Hrow & Hname).
  exists row. split; [exact Hrow|].
  rewrite Hname, contact_name_chain. simpl. unfold JS.or.
  split.
  - destruct (JS.truthy (addressbookName (jid c) db)) eqn:Ha; [by rewrite Ha|].
    destruct (JS.truthy (notifyName (jid c) db)) eqn:Hn; [by rewrite Hn|].
    simpl. by destruct (c_name row).
  - by intros -> -> ->.
Qed.

(** A conversation with a notify name only is listed under it. *)
Lemma getAllChats_name_priority_witness :
  let db := upsertContact "A" "" "Al" (upsertChat (mkChat "A" "+A" "hi" 1000 0 false) emptyDb) in
  let c := mkChat "A" "Al" "hi" 1000 0 false in
  c ∈ getAllChats db
  /\ exists row, chats db !! "A" = Some row
       /\ name c = firstNonEmpty [addressbookName "A" db; notifyName "A" db; c_name row].
Proof.
  intros db c.
  assert (Hin : c ∈ getAllChats db).
  { assert (Hlist : getAllChats db = [c]) by (vm_compute; reflexivity).
    rewrite Hlist. apply list_elem_of_here. }
  split; [exact Hin|].
  destruct (getAllChats_name_priority db c Hin) as [(row & Hrow & Hname & _) _].
  exists row. split; [exact Hrow | exact Hname].
Defined.

(** ** Close handling *)

Section CloseHandling.

Variable loggedOut : Z.

Lemma observedState_emit s w :
  observedState (emit (EvConnectionState s) w) = s.
Proof. unfold observedState, emit; simpl. by rewrite foldl_app. Qed.

(** A logout goes to [Disconnected]: no timer is set and the counter is
    not read. *)
Lemma close_logged_out w :
  onConnectionUpdate loggedOut (closeWith (Some loggedOut)) w
  = emit (EvConnectionState Disconnected) w.
Proof.
  unfold onConnectionUpdate, closeWith; simpl.
  rewrite (bool_decide_eq_true_2 (Some loggedOut = Some loggedOut)) by reflexivity.
  reflexivity.
Qed.

(** Below the maximum, any other close counts one retry, announces
    [Connecting] and sets the reconnect timer. *)
Lemma close_retry code w :
  code <> Some loggedOut ->
  retryCount w < maxRetries ->
  onConnectionUpdate loggedOut (closeWith code) w
  = mkService (sock w) (retryCount w + 1) (chatUpdateTimer w) (db w) (clock w)
      (S (nextHandle w))
      (timers w ++ [mkTimer (nextHandle w)
                      (clock w + Z.min (1000 * (retryCount w + 1)) 10000) Reconnect])
      (emitted w ++ [(clock w, EvConnectionState Connecting)]).
Proof.
  intros Hcode Hlt.
  unfold onConnectionUpdate, closeWith; simpl.
  rewrite (bool_decide_eq_false_2 (code = Some loggedOut)) by assumption.
  destruct (Z.ltb_spec (retryCount w) maxRetries); [reflexivity | lia].
Qed.

(** At the maximum, a close goes to [Disconnected] and sets no timer. *)
Lemma close_exhausted code w :
  maxRetries <= retryCount w ->
  onConnectionUpdate loggedOut (closeWith code) w
  = emit (EvConnectionState Disconnected) w.
Proof.
  intros Hge.
  unfold onConnectionUpdate, closeWith; simpl.
  destruct (Z.ltb_spec (retryCount w) maxRetries); [lia|].
  by rewrite andb_false_r.
Qed.

End CloseHandling.

(** Five closes in a row from a counter at zero: every one of them sets
    a reconnect timer, the delays growing by a second each time. *)
Lemma five_closes loggedOut c1 c2 c3 c4 c5 w :
  retryCount w = 0 ->
  Forall (fun code => code <> Some loggedOut) [c1; c2; c3; c4; c5] ->
  closes loggedOut [c1; c2; c3; c4; c5] w
  = mkService (sock w) 5 (chatUpdateTimer w) (db w) (clock w)
      (5 + nextHandle w)
      (timers w ++ [mkTimer (nextHandle w) (clock w + 1000) Reconnect;
                    mkTimer (1 + nextHandle w) (clock w + 2000) Reconnect;
                    mkTimer (2 + nextHandle w) (clock w + 3000) Reconnect;
                    mkTimer (3 + nextHandle w) (clock w + 4000) Reconnect;
                    mkTimer (4 + nextHandle w) (clock w + 5000) Reconnect])
      (emitted w ++ [(clock w, EvConnectionState Connecting);
                     (clock w, EvConnectionState Connecting);
                     (clock w, EvConnectionState Connecting);
                     (clock w, EvConnectionState Connecting);
                     (clock w, EvConnectionState Connecting)]).
Proof.
  intros Hzero Hcodes.
  repeat match goal with
         | H : Forall _ (_ :: _) |- _ => apply Forall_cons in H as [? H]
         end.
  unfold closes; simpl.
  rewrite (close_retry _ c1) by (rewrite ?Hzero; unfold maxRetries; done || lia); simpl.
  rewrite (close_retry _ c2) by (simpl; rewrite ?Hzero; unfold maxRetries; done || lia); simpl.
  rewrite (close_retry _ c3) by (simpl; rewrite ?Hzero; unfold maxRetries; done || lia); simpl.
  rewrite (close_retry _ c4) by (simpl; rewrite ?Hzero; unfold maxRetries; done || lia); simpl.
  rewrite (close_retry _ c5) by (simpl; rewrite ?Hzero; unfold maxRetries; done || lia); simpl.
  rewrite Hzero; simpl. rewrite <- !app_assoc. reflexivity.
Qed.

(** C2, as stated, fails on its count: after five closes in a row that
    are not logouts, starting from a fresh service, the state is
    [Connecting] and the fifth reconnect is pending; it is the sixth
    close that ends in [Disconnected]. *)
Lemma five_closes_counterexample :
  let w := closes 401 [None; None; None; None; None] (connect (newService emptyDb 0)) in
  observedState w = Connecting
  /\ observedState w <> Disconnected
  /\ length (pendingReconnects w) = 5%nat
  /\ observedState (closes 401 [None] w) = Disconnected.
Proof. repeat split; try (vm_compute; reflexivity). discriminate. Qed.

(** C2, amended. A close that is a logout goes to [Disconnected] and
    sets no timer, whatever the retry counter. Any other close with the
    counter below 5 adds one to the counter, goes to [Connecting] and
    sets a reconnect timer due after [min (1000 * retryCount) 10000] ms,
    counter already incremented. Five such closes in a row from a
    counter at zero use up the budget: each sets its reconnect, the
    counter is 5 and the state is [Connecting]. The sixth close, and
    every close at a counter of 5 or more, goes to [Disconnected] and
    sets no timer. *)
Theorem close_handling (loggedOut : Z) (w : Service) (code : option Z) :
  (let w' := onConnectionUpdate loggedOut (closeWith (Some loggedOut)) w in
   observedState w' = Disconnected /\ timers w' = timers w
   /\ nextHandle w' = nextHandle w)
  /\ (code <> Some loggedOut -> retryCount w < maxRetries ->
      let w' := onConnectionUpdate loggedOut (closeWith code) w in
      retryCount w' = retryCount w + 1
      /\ observedState w' = Connecting
      /\ timers w' = (timers w ++
           [mkTimer (nextHandle w) (clock w + Z.min (1000 * retryCount w') 10000) Reconnect])%list)
  /\ (maxRetries <= retryCount w ->
      let w' := onConnectionUpdate loggedOut (closeWith code) w in
      observedState w' = Disconnected /\ timers w' = timers w
      /\ nextHandle w' = nextHandle w)
  /\ (retryCount w = 0 ->
      forall c1 c2 c3 c4 c5,
        Forall (fun code => code <> Some loggedOut) [c1; c2; c3; c4; c5] ->
        let w5 := closes loggedOut [c1; c2; c3; c4; c5] w in
        retryCount w5 = maxRetries
        /\ observedState w5 = Connecting
        /\ length (timers w5) = (length (timers w) + 5)%nat
        /\ forall c6,
             let w6 := onConnectionUpdate loggedOut (closeWith c6) w5 in
             observedState w6 = Disconnected /\ timers w6 = timers w5
             /\ nextHandle w6 = nextHandle w5).
Proof.
  split; [|split; [|split]].
  - rewrite close_logged_out. simpl. by rewrite observedState_emit.
  - intros Hcode Hlt. rewrite close_retry by assumption. simpl.
    split; [reflexivity|]. split; [|reflexivity].
    unfold observedState; simpl. by rewrite foldl_app.
  - intros Hge. rewrite close_exhausted by assumption. simpl.
    by rewrite observedState_emit.
  - intros Hzero c1 c2 c3 c4 c5 Hcodes.
    rewrite five_closes by assumption. simpl.
    split; [reflexivity|]. split; [|split].
    + unfold observedState; simpl. by rewrite foldl_app.
    + rewrite length_app. reflexivity.
    + intros c6. rewrite close_exhausted by (simpl; unfold maxRetries; lia).
      simpl. by rewrite observedState_emit.
Qed.

(** The second close of a run, for a reason that is not a logout, sets
    a reconnect two seconds ahead. *)
Lemma close_handling_witness :
  let w := closes 401 [Some 428] (connect (newService emptyDb 0)) in
  Some 408 <> Some 401 /\ retryCount w < maxRetries
  /\ timers (onConnectionUpdate 401 (closeWith (Some 408)) w)
     = (timers w ++ [mkTimer 1%nat 2000 Reconnect])%list.
Proof.
  intros w.
  assert (Hcode : Some 408 <> Some 401) by discriminate.
  assert (Hlt : retryCount w < maxRetries) by (vm_compute; reflexivity).
  split; [exact Hcode|]. split; [exact Hlt|].
  destruct (close_handling 401 w (Some 408)) as (_ & Hretry & _).
  destruct (Hretry Hcode Hlt) as (_ & _ & Htimers).
  exact Htimers.
Defined.

(** ** Content extraction *)

Section Extraction.

Implicit Types (c m : WAMessageContent).

(** [extract] in the shape of the source: the first wrapper that holds
    an inner message is entered, and only without one are the protocol
    tests and the table reached. *)
Lemma extract_unfold c :
  extract c =
  match innerMessage c with
  | Some m => extract m
  | None => afterUnwrap c extract (fun r => r)
  end.
Proof.
  destruct c; unfold innerMessage; simpl.
  repeat match goal with
         | |- context [unwrapOr ?w] =>
             destruct w as [[[?|]]|]; simpl; try reflexivity
         end.
Qed.

Lemma extract_inner c m : innerMessage c = Some m -> extract c = extract m.
Proof. intros H. by rewrite extract_unfold, H. Qed.

Lemma extract_wrap k c : extract (wrap k c) = extract c.
Proof. apply extract_inner. by destruct k. Qed.

Lemma extract_wrapAll chain c : extract (wrapAll chain c) = extract c.
Proof.
  induction chain as [|k chain IH]; simpl; [reflexivity|].
  by rewrite extract_wrap.
Qed.

(** A non-empty [conversation] is returned as it is, unless a wrapper
    or a protocol message comes first; a key distribution next to it
    does not matter. *)
Lemma extract_conversation c text :
  innerMessage c = None -> protocolMessage c = None ->
  conversation c = Some text -> text <> "" ->
  extract c = mkExtracted text Text.
Proof.
  intros Hin Hproto Hconv Htext. apply truthy_true in Htext.
  rewrite extract_unfold, Hin. unfold afterUnwrap, actualContent.
  rewrite Hproto, Hconv; simpl. rewrite Htext; simpl.
  by rewrite andb_false_r.
Qed.

(** The same for the text of an [extendedTextMessage], when there is
    no [conversation]. *)
Lemma extract_extendedText c text :
  innerMessage c = None -> protocolMessage c = None ->
  JS.truthy_opt (conversation c) = false ->
  extendedTextMessage c = Some (Some text) -> text <> "" ->
  extract c = mkExtracted text Text.
Proof.
  intros Hin Hproto Hconv Hext Htext. apply truthy_true in Htext.
  rewrite extract_unfold, Hin. unfold afterUnwrap, actualContent.
  rewrite Hproto, Hconv, Hext; simpl. rewrite Htext; simpl.
  by rewrite andb_false_r.
Qed.

End Extraction.

(** C3. Where no wrapper holds an inner message: a key distribution
    that comes with neither a [conversation] nor an
    [extendedTextMessage], and a protocol message that is not an edit
    with replacement content, are extracted as the empty body; a
    protocol message of type 14 with replacement content is extracted
    as that content is. A wrapper is extracted as its inner message is,
    so a plain non-empty text under the chain ephemeral, view-once,
    edited, and under any other chain of wrappers, comes out as that
    text with type [Text]. *)
Theorem extractContent_unwraps :
  (forall c, innerMessage c = None -> protocolMessage c = None ->
     is_some (senderKeyDistributionMessage c) = true ->
     JS.truthy_opt (conversation c) = false -> extendedTextMessage c = None ->
     extractContent (Some c) = sentinel)
  /\ (forall c pm, innerMessage c = None -> protocolMessage c = Some pm ->
        protocolType pm <> Some 14 \/ protocolEdited pm = None ->
        extractContent (Some c) = sentinel)
  /\ (forall c pm edited, innerMessage c = None -> protocolMessage c = Some pm ->
        protocolType pm = Some 14 -> protocolEdited pm = Some edited ->
        extractContent (Some c) = extractContent (Some edited))
  /\ (forall c m, innerMessage c = Some m ->
        extractContent (Some c) = extractContent (Some m))
  /\ (forall text, text <> "" ->
        extractContent (Some (wrap Ephemeral (wrap ViewOnce (wrap Edited (plainText text)))))
        = mkExtracted text Text)
  /\ (forall chain text, text <> "" ->
        extractContent (Some (wrapAll chain (plainText text))) = mkExtracted text Text).
Proof.
  assert (Hplain : forall text, text <> "" -> extract (plainText text) = mkExtracted text Text).
  { intros text Htext. by apply extract_conversation. }
  repeat split; unfold extractContent.
  - intros c Hin Hproto Hkey Hconv Hext.
    rewrite extract_unfold, Hin. unfold afterUnwrap.
    by rewrite Hproto, Hkey, Hconv, Hext.
  - intros c pm Hin Hproto Hnot.
    rewrite extract_unfold, Hin. unfold afterUnwrap. rewrite Hproto.
    destruct Hnot as [Htype | Hedit].
    + by rewrite bool_decide_eq_false_2.
    + rewrite Hedit. by case_bool_decide.
  - intros c pm edited Hin Hproto Htype Hedit.
    rewrite extract_unfold, Hin. unfold afterUnwrap.
    by rewrite Hproto, Htype, Hedit.
  - intros c m. apply extract_inner.
  - intros text Htext. rewrite !extract_wrap. by apply Hplain.
  - intros chain text Htext. rewrite extract_wrapAll. by apply Hplain.
Qed.

(** A disappearing-mode change (type 3) has no body; an edit (type 14)
    that carries "fixed" is extracted as "fixed"; "hello" comes out of
    the chain ephemeral, view-once, edited. *)
Lemma extractContent_unwraps_witness :
  let change := with_protocolMessage (Some (mkProtocol (Some 3) None)) noContent in
  let edit :=
    with_protocolMessage (Some (mkProtocol (Some 14) (Some (plainText "fixed")))) noContent in
  (innerMessage change = None /\ extractContent (Some change) = sentinel)
  /\ (innerMessage edit = None
      /\ extractContent (Some edit) = extractContent (Some (plainText "fixed")))
  /\ ("hello" <> ""
      /\ extractContent
           (Some (wrap Ephemeral (wrap ViewOnce (wrap Edited (plainText "hello")))))
         = mkExtracted "hello" Text).
Proof.
  intros change edit.
  destruct extractContent_unwraps as (_ & Hproto & Hedit & _ & Hchain & _).
  assert (Hne : "hello" <> "") by discriminate.
  split; [|split].
  - split; [reflexivity|].
    apply (Hproto change (mkProtocol (Some 3) None)); [reflexivity | reflexivity |].
    right. reflexivity.
  - split; [reflexivity|].
    apply (Hedit edit (mkProtocol (Some 14) (Some (plainText "fixed"))));
      reflexivity.
  - split; [exact Hne|]. apply Hchain. exact Hne.
Defined.

(** ** Key distribution next to content *)

(** The part of C10 the code does: a key distribution that comes with
    a non-empty text, in [conversation] or in [extendedTextMessage],
    is extracted as that text. *)
Lemma key_distribution_with_text (c : WAMessageContent) (text : string) :
  innerMessage c = None -> protocolMessage c = None ->
  is_some (senderKeyDistributionMessage c) = true ->
  text <> "" ->
  (conversation c = Some text
   \/ (JS.truthy_opt (conversation c) = false
       /\ extendedTextMessage c = Some (Some text))) ->
  extractContent (Some c) = mkExtracted text Text.
Proof.
  intros Hin Hproto _ Htext [Hconv | [Hconv Hext]]; unfold extractContent.
  - by apply extract_conversation.
  - by apply extract_extendedText.
Qed.

(** C10, where the code departs from it: a key distribution that comes
    with an image, and so is not the only content of the envelope, is
    still extracted as the empty body, and the image is lost. Without
    the key distribution the same envelope is an image. *)
Theorem key_distribution_with_image_dropped :
  let image := with_imageMessage (Some (Some "cat")) noContent in
  let both := with_senderKeyDistributionMessage (Some tt) image in
  extractContent (Some both) = sentinel
  /\ extractContent (Some image) = mkExtracted "cat" Image.
Proof. split; reflexivity. Qed.

(** ** Outbound send *)



(** ** Unread counters *)

Section Unread.

Lemma db_notifyChatsChanged w : db (notifyChatsChanged w) = db w.
Proof. unfold notifyChatsChanged. by destruct (chatUpdateTimer w). Qed.

Lemma chats_upsertContact j n f d : chats (upsertContact j n f d) = chats d.
Proof. reflexivity. Qed.

(** The counter after the three writes of the handler: [upsertChat]
    stores the counter the chat carries, over the stored one, and the
    increment comes on top of that. *)
Lemma unread_written (c : Chat) m w1 (fromMe : bool) ev :
  let written := with_db (upsertMessage m) (with_db (upsertChat c) w1) in
  unread_count <$>
    chats (db (emit ev (if negb fromMe
                        then with_db (incrementUnreadCount (jid c)) written
                        else written))) !! jid c
  = Some (if fromMe then unreadCount c else unreadCount c + 1).
Proof.
  destruct fromMe; simpl.
  - rewrite lookup_insert_on_conflict.
    by destruct (chats (db w1) !! jid c).
  - unfold update_where. rewrite lookup_alter_eq, lookup_insert_on_conflict.
    by destruct (chats (db w1) !! jid c).
Qed.

(** What the handler leaves in the unread counter of the conversation
    of a message it stores: one for a message of somebody else, zero
    for a message of the owner, whatever the counter was. *)
Lemma onMessage_unread msg w parsed :
  JS.truthy_opt (MessageKey.remoteJid (WAMessage.key msg)) = true ->
  MessageKey.remoteJid (WAMessage.key msg) <> Some "status@broadcast" ->
  parseMessage (clock w) msg = Some parsed ->
  body parsed <> "" ->
  unread_count <$> chats (db (onMessage msg w)) !! chatJid parsed
  = Some (if isFromMe parsed then 0 else 1).
Proof.
  intros Hjid Hcast Hparsed Hbody. apply truthy_true in Hbody.
  unfold onMessage.
  rewrite Hjid, (bool_decide_eq_false_2 _ Hcast), Hparsed, Hbody.
  cbv beta iota zeta. unfold negb at 1 2.
  rewrite db_notifyChatsChanged.
  match goal with
  | |- context [with_db (upsertChat ?c) ?w1] =>
      exact (unread_written c parsed w1 (isFromMe parsed) (EvMessage parsed))
  end.
Qed.

End Unread.

(** C6, where the code departs from it. The handler writes the
    conversation with an unread counter of zero before it increments,
    and [upsertChat] stores that zero over the stored counter: after a
    first message from A the counter is 1, after a second one it is
    still 1 and not 2, and a message of the owner puts it at 0. *)
Theorem unread_counter_restarts :
  let incoming id text seconds :=
    WAMessage.mk (MessageKey.mk (Some "A@s.whatsapp.net") (Some false) (Some id) None)
                 (Some (plainText text)) (Some (TsNumber seconds)) (Some "Alice") None in
  let mine :=
    WAMessage.mk (MessageKey.mk (Some "A@s.whatsapp.net") (Some true) (Some "M3") None)
                 (Some (plainText "ok")) (Some (TsNumber 3)) None None in
  let unread w := unread_count <$> chats (db w) !! "A@s.whatsapp.net" in
  let w0 := connect (newService emptyDb 0) in
  let w1 := onMessagesUpsert [incoming "M1" "hi" 1] w0 in
  let w2 := onMessagesUpsert [incoming "M2" "there" 2] w1 in
  let w3 := onMessagesUpsert [mine] w2 in
  unread w1 = Some 1 /\ unread w2 = Some 1 /\ unread w3 = Some 0
  /\ messageCount "A@s.whatsapp.net" (db w2) = 2%nat.
Proof. repeat split; vm_compute; reflexivity. Qed.

(** ** The debounce of chats-changed *)

Section Debounce.

Implicit Types (w : Service) (t : Z).

(** The first call of a burst sets the timer. *)
Lemma notifyAt_idle t w :
  timers w = [] -> chatUpdateTimer w = None -> clock w <= t ->
  armed t (notifyAt t w) /\ emitted (notifyAt t w) = emitted w.
Proof.
  destruct w as [s r cu d c n ts em]; simpl. intros -> -> Hle.
  unfold notifyAt, advance, armed; simpl.
  repeat split; [lia|]. exists n. split; [reflexivity|].
  do 3 f_equal. lia.
Qed.

(** A call within the window replaces the timer and emits nothing. *)
Lemma notifyAt_armed t0 t w :
  armed t0 w -> t0 <= t < t0 + 300 ->
  armed t (notifyAt t w) /\ emitted (notifyAt t w) = emitted w.
Proof.
  destruct w as [s r cu d c n ts em]. unfold armed; simpl.
  intros (-> & h & -> & ->) Hwin.
  unfold notifyAt, advance; simpl.
  destruct (Z.leb_spec (t0 + 300) t); [lia|]. simpl.
  unfold notifyChatsChanged, clearTimeout; simpl.
  rewrite filter_cons_False by (simpl; intros Hne; by apply Hne). 
  rewrite filter_nil. simpl.
  repeat split; [lia|]. exists n. split; [reflexivity|].
  do 3 f_equal. lia.
Qed.

Lemma last_cons_default (l : list Z) : forall a d,
  List.last (a :: l) d = List.last l a.
Proof.
  induction l as [|b l IH]; intros a d; [reflexivity|].
  change (List.last (a :: b :: l) d) with (List.last (b :: l) d).
  by rewrite !IH.
Qed.

Lemma burst_armed rest : forall t w,
  armed t w -> rapid t rest ->
  armed (List.last rest t) (burst rest w) /\ emitted (burst rest w) = emitted w.
Proof.
  induction rest as [|t' rest IH]; intros t w Harmed Hrapid.
  - by split.
  - destruct Hrapid as [Hwin Hrapid].
    destruct (notifyAt_armed t t' w Harmed Hwin) as [Harmed' Hemitted].
    destruct (IH t' _ Harmed' Hrapid) as [Hlast Hsame].
    change (burst (t' :: rest) w) with (burst rest (notifyAt t' w)).
    split; [|congruence].
    by rewrite last_cons_default.
Qed.

(** Before the window is over nothing is emitted; once it is over, the
    signal has been emitted, at the time the timer was due. *)
Lemma advance_armed t T w :
  armed t w ->
  (t <= T < t + 300 -> emitted (advance T w) = emitted w)
  /\ (t + 300 <= T ->
      emitted (advance T w) = (emitted w ++ [(t + 300, EvChatsChanged)])%list
      /\ timers (advance T w) = [] /\ chatUpdateTimer (advance T w) = None).
Proof.
  destruct w as [s r cu d c n ts em]. unfold armed; simpl.
  intros (-> & h & -> & ->).
  unfold advance; simpl. split; intros Hwin.
  - by destruct (Z.leb_spec (t + 300) T); [lia|].
  - destruct (Z.leb_spec (t + 300) T); [|lia]. simpl.
    unfold fire, clearTimeout; simpl.
    rewrite filter_cons_False by (simpl; intros Hne; by apply Hne).
    rewrite filter_nil. unfold emit; simpl.
    repeat split. do 3 f_equal. lia.
Qed.

End Debounce.

(** *** The rounds of [advance] are enough *)

Section Rounds.

Lemma earliest_None ts : earliest ts = None -> ts = [].
Proof.
  destruct ts as [|t ts]; [done|]. simpl.
  destruct (earliest ts); [|done]. by case (due _ <? due _).
Qed.

Lemma earliest_Some ts t :
  earliest ts = Some t ->
  t ∈ ts /\ Forall (fun u => due t <= due u) ts.
Proof.
  revert t. induction ts as [|a ts IH]; intros t; [done|]. simpl.
  destruct (earliest ts) as [u|] eqn:Hu.
  - destruct (IH u eq_refl) as [Hin Hall].
    destruct (Z.ltb_spec (due u) (due a)); intros [= <-].
    + split; [by apply list_elem_of_further|].
      constructor; [lia | exact Hall].
    + split; [apply list_elem_of_here|].
      constructor; [lia|]. eapply Forall_impl; [exact Hall|]. simpl. intros; lia.
  - intros [= <-]. apply earliest_None in Hu as ->.
    split; [apply list_elem_of_here|]. constructor; [lia | constructor].
Qed.

Lemma timers_fire t w :
  timers (fire t w) = filter (fun u => handle u <> handle t) (timers w).
Proof. unfold fire. by destruct (action t). Qed.

Lemma length_filter_elem (ts : list Timer) t :
  t ∈ ts ->
  (length (filter (fun u => handle u <> handle t) ts) < length ts)%nat.
Proof.
  induction ts as [|a ts IH]; intros Hin; [by apply elem_of_nil in Hin|].
  apply elem_of_cons in Hin as [<- | Hin].
  - rewrite filter_cons_False by (intros Hne; by apply Hne).
    pose proof (length_filter (fun u => handle u <> handle t) ts). simpl. lia.
  - specialize (IH Hin). rewrite filter_cons. case_decide; simpl; lia.
Qed.

(** When the rounds cover the pending timers, no timer due by then
    is left. *)
Lemma runTimers_complete fuel : forall T w,
  (length (timers w) <= fuel)%nat ->
  Forall (fun u => T < due u) (timers (runTimers fuel T w)).
Proof.
  induction fuel as [|fuel IH]; intros T w Hlen; simpl.
  - destruct (timers w); [constructor | simpl in Hlen; lia].
  - destruct (earliest (timers w)) as [t|] eqn:Ht.
    + apply earliest_Some in Ht as [Hin Hmin].
      destruct (Z.leb_spec (due t) T).
      * apply IH. rewrite timers_fire.
        pose proof (length_filter_elem _ _ Hin). lia.
      * eapply Forall_impl; [exact Hmin|]. simpl. intros; lia.
    + apply earliest_None in Ht as ->. constructor.
Qed.

Lemma advance_complete T w :
  Forall (fun u => T < due u) (timers (advance T w)).
Proof. unfold advance; simpl. by apply runTimers_complete. Qed.

(** Neither the passing of time nor the timers touch the retry counter. *)
Lemma retryCount_advance T w : retryCount (advance T w) = retryCount w.
Proof.
  unfold advance; simpl.
  generalize (length (timers w)). intros fuel. revert w.
  induction fuel as [|fuel IH]; intros w; simpl; [reflexivity|].
  destruct (earliest (timers w)) as [t|]; [|reflexivity].
  destruct (due t <=? T); [|reflexivity].
  rewrite IH. unfold fire. by destruct (action t).
Qed.

End Rounds.

(** C8. From a service with no timer pending, [N >= 1] calls of
    [notifyChatsChanged], each less than 300 ms after the one before,
    emit nothing while they last and nothing in the 300 ms after the
    last one; once 300 ms have passed since the last call, exactly one
    [chats-changed] has been emitted, at the time the last call plus
    300 ms. A single call is the case [N = 1]. *)
Theorem notifyChatsChanged_debounces (w : Service) (t1 : Z) (rest : list Z) :
  timers w = [] -> chatUpdateTimer w = None -> clock w <= t1 ->
  rapid t1 rest ->
  let tn := List.last rest t1 in
  let w' := burst (t1 :: rest) w in
  chatsChangedAt w' = chatsChangedAt w
  /\ (forall T, tn <= T < tn + 300 ->
        chatsChangedAt (advance T w') = chatsChangedAt w)
  /\ (forall T, tn + 300 <= T ->
        chatsChangedAt (advance T w') = (chatsChangedAt w ++ [tn + 300])%list).
Proof.
  intros Hidle Hnone Hclock Hrapid tn w'.
  destruct (notifyAt_idle t1 w Hidle Hnone Hclock) as [Harmed Hfirst].
  destruct (burst_armed rest t1 _ Harmed Hrapid) as [Hlast Hsame].
  change (burst rest (notifyAt t1 w)) with w' in Hlast, Hsame.
  fold tn in Hlast.
  assert (Hw' : emitted w' = emitted w) by congruence.
  destruct (advance_armed tn) with (w := w') (T := tn) as [Hquiet _]; [exact Hlast|].
  unfold chatsChangedAt. split; [by rewrite Hw'|]. split; intros T HT.
  - destruct (advance_armed tn T w' Hlast) as [Hin _].
    by rewrite (Hin HT), Hw'.
  - destruct (advance_armed tn T w' Hlast) as [_ Hout].
    destruct (Hout HT) as (Hem & _ & _).
    by rewrite Hem, omap_app, Hw'.
Qed.

(** Three calls at 10, 100 and 350 ms: nothing at 649 ms, one signal at
    650 ms; a single call at 10 ms: one signal at 310 ms. *)
Lemma notifyChatsChanged_debounces_witness :
  let w := newService emptyDb 0 in
  (timers w = [] /\ chatUpdateTimer w = None /\ clock w <= 10 /\ rapid 10 [100; 350])
  /\ chatsChangedAt (advance 649 (burst [10; 100; 350] w)) = []
  /\ chatsChangedAt (advance 5000 (burst [10; 100; 350] w)) = [650]
  /\ chatsChangedAt (advance 5000 (burst [10] w)) = [310].
Proof.
  intros w.
  assert (Hrapid : rapid 10 [100; 350]) by (simpl; lia).
  assert (Hclock : clock w <= 10) by (simpl; lia).
  split; [repeat split; (reflexivity || exact Hclock || (simpl in Hrapid; lia))|].
  destruct (notifyChatsChanged_debounces w 10 [100; 350] eq_refl eq_refl Hclock Hrapid)
    as (_ & Hquiet & Hfired).
  destruct (notifyChatsChanged_debounces w 10 [] eq_refl eq_refl Hclock I)
    as (_ & _ & Hsingle).
  split; [apply Hquiet; simpl; lia|].
  split; [apply Hfired; simpl; lia | apply Hsingle; simpl; lia].
Defined.

(** * Further properties of the store *)

Section ChatRows.

Implicit Types (db : Db) (chat : Chat).

(** X1. [upsertChat] writes one row: an empty incoming name keeps the
    stored name, a non-empty one replaces it, the stored timestamp
    never goes down, the unread counter and the group flag are the
    incoming ones; a conversation that is not stored is inserted as it
    comes; every other conversation, the contacts and the messages stay
    as they are. *)
Theorem upsertChat_row (chat : Chat) (db : Db) :
  (forall stored, chats db !! jid chat = Some stored ->
     exists row, chats (upsertChat chat db) !! jid chat = Some row
       /\ (name chat = "" -> c_name row = c_name stored)
       /\ (name chat <> "" -> c_name row = name chat)
       /\ last_message_at stored <= last_message_at row
       /\ lastMessageAt chat <= last_message_at row
       /\ unread_count row = unreadCount chat
       /\ is_group row = bool_to_int (isGroup chat))
  /\ (chats db !! jid chat = None ->
      chats (upsertChat chat db) !! jid chat = Some (chat_row chat))
  /\ (forall j, j <> jid chat -> chats (upsertChat chat db) !! j = chats db !! j)
  /\ contacts (upsertChat chat db) = contacts db
  /\ messages (upsertChat chat db) = messages db.
Proof.
  split; [|split; [|split; [|split; reflexivity]]].
  - intros stored Hstored. eexists.
    split; [rewrite chats_upsertChat, Hstored; reflexivity|].
    unfold merge_chat, chat_row; simpl. repeat split; try lia.
    + by intros ->.
    + intros Hne. apply truthy_true in Hne. by rewrite Hne.
  - intros Hnone. by rewrite chats_upsertChat, Hnone.
  - intros j Hj. by apply chats_upsertChat_ne.
Qed.

Lemma upsertChat_row_witness :
  let db := upsertChat (mkChat "A" "Alice" "hi" 1000 2 false) emptyDb in
  chats db !! "A" = Some (mkChatRow "Alice" "hi" 1000 2 0)
  /\ exists row, chats (upsertChat (mkChat "A" "" "" 500 0 false) db) !! "A" = Some row
       /\ c_name row = "Alice" /\ 1000 <= last_message_at row.
Proof.
  intros db.
  assert (Hdb : chats db !! "A" = Some (mkChatRow "Alice" "hi" 1000 2 0))
    by (vm_compute; reflexivity).
  split; [exact Hdb|].
  destruct (upsertChat_row (mkChat "A" "" "" 500 0 false) db) as [Hmerge _].
  destruct (Hmerge _ Hdb) as (row & Hrow & Hkeep & _ & Hmono & _).
  exists row. split; [exact Hrow|]. split; [by apply Hkeep | exact Hmono].
Defined.

Lemma chats_iter_increment j db row (n : nat) :
  chats db !! j = Some row ->
  chats (Nat.iter n (incrementUnreadCount j) db) !! j
  = Some (mkChatRow (c_name row) (last_message row) (last_message_at row)
                    (unread_count row + Z.of_nat n) (is_group row)).
Proof.
  intros Hrow. induction n as [|n IH].
  - simpl. rewrite Hrow, Z.add_0_r. by destruct row.
  - rewrite Nat.iter_succ. unfold incrementUnreadCount at 1, set_chats, update_where; simpl.
    rewrite lookup_alter_eq, IH; simpl. do 2 f_equal. lia.
Qed.

(** X2. The two relative updates of the unread counter touch nothing
    but that counter: on a conversation that is not stored they leave
    the store as it is (no row is created); on a stored one, [n]
    increments add [n], a reset then gives zero, and name, preview,
    timestamp and group flag stay; other conversations stay. *)
Theorem unread_relative_updates (j : string) (db : Db) :
  (chats db !! j = None ->
     incrementUnreadCount j db = db /\ resetUnreadCount j db = db)
  /\ (forall row (n : nat), chats db !! j = Some row ->
        chats (Nat.iter n (incrementUnreadCount j) db) !! j
        = Some (mkChatRow (c_name row) (last_message row) (last_message_at row)
                          (unread_count row + Z.of_nat n) (is_group row))
        /\ chats (resetUnreadCount j (Nat.iter n (incrementUnreadCount j) db)) !! j
           = Some (mkChatRow (c_name row) (last_message row) (last_message_at row)
                             0 (is_group row)))
  /\ (forall k, k <> j ->
        chats (incrementUnreadCount j db) !! k = chats db !! k
        /\ chats (resetUnreadCount j db) !! k = chats db !! k).
Proof.
  split; [|split].
  - intros Hnone. destruct db as [cts chs msgs]; simpl in *.
    unfold incrementUnreadCount, resetUnreadCount, set_chats, update_where; simpl.
    by rewrite !alter_id'.
  - intros row n Hrow. split; [by apply chats_iter_increment|].
    unfold resetUnreadCount, set_chats, update_where; simpl.
    by rewrite lookup_alter_eq, (chats_iter_increment j db row n Hrow).
  - intros k Hk.
    unfold incrementUnreadCount, resetUnreadCount, set_chats, update_where; simpl.
    by rewrite !lookup_alter_ne.
Qed.

Lemma unread_relative_updates_witness :
  let db := upsertChat (mkChat "A" "Alice" "hi" 1000 2 false) emptyDb in
  chats db !! "A" = Some (mkChatRow "Alice" "hi" 1000 2 0)
  /\ chats (Nat.iter 3 (incrementUnreadCount "A") db) !! "A"
     = Some (mkChatRow "Alice" "hi" 1000 5 0)
  /\ incrementUnreadCount "B" db = db.
Proof.
  intros db.
  assert (Hdb : chats db !! "A" = Some (mkChatRow "Alice" "hi" 1000 2 0))
    by (vm_compute; reflexivity).
  split; [exact Hdb|].
  split.
  - destruct (unread_relative_updates "A" db) as (_ & Hrel & _).
    destruct (Hrel _ 3%nat Hdb) as [Hinc _]. exact Hinc.
  - destruct (unread_relative_updates "B" db) as (Habsent & _).
    apply Habsent. vm_compute. reflexivity.
Defined.

End ChatRows.

Section ReadViews.

Implicit Types (db : Db).

#[local] Instance newer_first_total : Total newer_first.
Proof. intros a b. unfold newer_first. lia. Qed.

#[local] Instance newer_first_trans : Transitive newer_first.
Proof. intros a b c. unfold newer_first. lia. Qed.

#[local] Instance later_first_total : Total later_first.
Proof. intros a b. unfold later_first. lia. Qed.

#[local] Instance later_first_trans : Transitive later_first.
Proof. intros a b c. unfold later_first. lia. Qed.

#[local] Instance earlier_first_total : Total earlier_first.
Proof. intros a b. unfold earlier_first. lia. Qed.

#[local] Instance earlier_first_trans : Transitive earlier_first.
Proof. intros a b c. unfold earlier_first. lia. Qed.

(** X3. [getAllChats] lists every stored conversation once, with its
    stored preview, timestamp and unread counter, and lists nothing
    else; the list is in descending order of last-message timestamp. *)
Theorem getAllChats_listing (db : Db) :
  StronglySorted (fun a b => lastMessageAt a >= lastMessageAt b) (getAllChats db)
  /\ NoDup (jid <$> getAllChats db)
  /\ (forall j row, chats db !! j = Some row ->
        exists c, c ∈ getAllChats db /\ jid c = j
          /\ lastMessage c = last_message row
          /\ lastMessageAt c = last_message_at row
          /\ unreadCount c = unread_count row)
  /\ (forall c, c ∈ getAllChats db -> is_Some (chats db !! jid c)).
Proof.
  unfold getAllChats. split; [|split; [|split]].
  - eapply StronglySorted_fmap; [|apply (StronglySorted_merge_sort newer_first)].
    by intros [j1 r1] [j2 r2].
  - rewrite <- list_fmap_compose.
    rewrite (list_fmap_ext _ fst) by (by intros ? [??]).
    rewrite merge_sort_Permutation. apply NoDup_fst_map_to_list.
  - intros j row Hrow. eexists. split.
    + apply list_elem_of_fmap. exists (j, row). split; [reflexivity|].
      rewrite merge_sort_Permutation. by apply elem_of_map_to_list.
    + by simpl.
  - intros c Hin. apply list_elem_of_fmap in Hin as [[j row] [-> Hin]].
    rewrite merge_sort_Permutation in Hin. apply elem_of_map_to_list in Hin.
    simpl. eauto.
Qed.

Lemma elem_of_getMessagesForChat c limit db m :
  m ∈ getMessagesForChat c limit db ->
  exists row, m = row_message (id m) row
    /\ (id m, row) ∈ take limit (merge_sort later_first
                                  (map_to_list (messagesOfChat c db)))
    /\ messages db !! id m = Some row /\ chat_jid row = c.
Proof.
  unfold getMessagesForChat. intros Hin.
  apply list_elem_of_fmap in Hin as [[k row] [-> Hin]].
  rewrite merge_sort_Permutation in Hin.
  exists row. split; [reflexivity|]. split; [exact Hin|].
  apply elem_of_take in Hin as (i & Hi & _).
  apply list_elem_of_lookup_2 in Hi.
  rewrite merge_sort_Permutation in Hi. apply elem_of_map_to_list in Hi.
  unfold messagesOfChat in Hi. by apply map_lookup_filter_Some in Hi.
Qed.

(** X4. The message window of a conversation holds messages of that
    conversation only, each once, in ascending order of timestamp; it
    has [limit] entries, or all the messages when there are fewer; and
    it is the most recent part: no stored message of the conversation
    that is left out is more recent than a message in the window. *)
Theorem getMessagesForChat_window (c : string) (limit : nat) (db : Db) :
  Forall (fun m => chatJid m = c) (getMessagesForChat c limit db)
  /\ StronglySorted (fun a b => timestamp a <= timestamp b)
       (getMessagesForChat c limit db)
  /\ NoDup (id <$> getMessagesForChat c limit db)
  /\ length (getMessagesForChat c limit db) = Nat.min limit (messageCount c db)
  /\ (forall m k row,
        m ∈ getMessagesForChat c limit db ->
        messages db !! k = Some row -> chat_jid row = c ->
        row_message k row ∉ getMessagesForChat c limit db ->
        m_timestamp row <= timestamp m).
Proof.
  split; [|split; [|split; [|split]]].
  - apply Forall_forall. intros m Hin.
    apply elem_of_getMessagesForChat in Hin as (row & -> & _ & _ & Hc). exact Hc.
  - unfold getMessagesForChat.
    eapply StronglySorted_fmap; [|apply (StronglySorted_merge_sort earlier_first)].
    by intros [j1 r1] [j2 r2].
  - unfold getMessagesForChat. rewrite <- list_fmap_compose.
    rewrite (list_fmap_ext _ fst) by (by intros ? [??]).
    rewrite merge_sort_Permutation.
    eapply sublist_NoDup; [|apply fmap_sublist, sublist_take].
    rewrite merge_sort_Permutation. apply NoDup_fst_map_to_list.
  - apply length_getMessagesForChat.
  - intros m k row Hin Hrow Hc Hout.
    apply elem_of_getMessagesForChat in Hin as (r & -> & Hin & _ & _). simpl.
    pose proof (StronglySorted_merge_sort later_first
                  (map_to_list (messagesOfChat c db))) as Hsorted.
    rewrite <- (take_drop limit) in Hsorted.
    assert (Hall : (k, row) ∈ merge_sort later_first (map_to_list (messagesOfChat c db))).
    { rewrite merge_sort_Permutation. apply elem_of_map_to_list.
      unfold messagesOfChat. by apply map_lookup_filter_Some. }
    rewrite <- (take_drop limit) in Hall. apply elem_of_app in Hall as [Htake | Hdrop].
    + exfalso. apply Hout. unfold getMessagesForChat.
      apply list_elem_of_fmap. exists (k, row). split; [reflexivity|].
      by rewrite merge_sort_Permutation.
    + pose proof (StronglySorted_app_1_elem_of _ _ _ _ _ Hsorted Hin Hdrop) as Hge.
      unfold later_first in Hge. simpl in Hge. lia.
Qed.

Lemma getMessagesForChat_window_witness :
  let m1 := mkMessage "M1" "A" "A" "Alice" "one" 1000 false Delivered Text in
  let m2 := mkMessage "M2" "A" "A" "Alice" "two" 2000 false Delivered Text in
  let db := upsertMessage m2 (upsertMessage m1 emptyDb) in
  m2 ∈ getMessagesForChat "A" 1 db
  /\ messages db !! "M1" = Some (message_row m1)
  /\ (m1 ∉ getMessagesForChat "A" 1 db)
  /\ timestamp m1 <= timestamp m2.
Proof.
  intros m1 m2 db.
  assert (Hlist : getMessagesForChat "A" 1 db = [m2]) by (vm_compute; reflexivity).
  assert (Hin : m2 ∈ getMessagesForChat "A" 1 db)
    by (rewrite Hlist; apply list_elem_of_here).
  assert (Hrow : messages db !! "M1" = Some (message_row m1)) by (vm_compute; reflexivity).
  assert (Hout : m1 ∉ getMessagesForChat "A" 1 db).
  { rewrite Hlist. intros Hm. apply list_elem_of_singleton in Hm. discriminate Hm. }
  split; [exact Hin|]. split; [exact Hrow|]. split; [exact Hout|].
  destruct (getMessagesForChat_window "A" 1 db) as (_ & _ & _ & _ & Hrecent).
  exact (Hrecent m2 "M1" (message_row m1) Hin Hrow eq_refl Hout).
Defined.

(** X5. What [upsertMessage] stores, the window reads back: a message
    comes out of [getMessagesForChat] for its conversation as it went
    in, owner flag included, whenever the limit covers the messages of
    that conversation. *)
Theorem upsertMessage_read_back (m : Message) (limit : nat) (db : Db) :
  (messageCount (chatJid m) (upsertMessage m db) <= limit)%nat ->
  m ∈ getMessagesForChat (chatJid m) limit (upsertMessage m db).
Proof.
  intros Hlimit. unfold getMessagesForChat.
  apply list_elem_of_fmap. exists (id m, message_row m).
  split; [by rewrite row_message_row|].
  rewrite merge_sort_Permutation, take_ge.
  - rewrite merge_sort_Permutation. apply elem_of_map_to_list.
    unfold messagesOfChat. apply map_lookup_filter_Some.
    split; [apply messages_upsertMessage | reflexivity].
  - by rewrite merge_sort_Permutation, length_map_to_list.
Qed.

Lemma upsertMessage_read_back_witness :
  let m := mkMessage "M1" "A" "me" "You" "ok" 1000 true Sent Text in
  (messageCount (chatJid m) (upsertMessage m emptyDb) <= 100)%nat
  /\ m ∈ getMessagesForChat "A" 100 (upsertMessage m emptyDb).
Proof.
  intros m.
  assert (Hcount : (messageCount (chatJid m) (upsertMessage m emptyDb) <= 100)%nat)
    by (vm_compute; lia).
  split; [exact Hcount|].
  exact (upsertMessage_read_back m 100 emptyDb Hcount).
Defined.

(** X6. A status update is a redelivery with the new status:
    [updateMessageStatus] on a stored message gives the store that
    [upsertMessage] gives for the same message with that status, and on
    an identifier that is not stored it changes nothing. *)
Theorem updateMessageStatus_redelivers (m : Message) (st : MessageStatus) (db : Db) :
  (messages db !! id m = Some (message_row m) ->
   updateMessageStatus (id m) st db
   = upsertMessage (mkMessage (id m) (chatJid m) (senderJid m) (senderName m)
                              (body m) (timestamp m) (isFromMe m) st (type m)) db)
  /\ (messages db !! id m = None -> updateMessageStatus (id m) st db = db).
Proof.
  destruct db as [cts chs msgs]; simpl.
  unfold updateMessageStatus, upsertMessage, set_messages, update_where; simpl.
  split; intros Hrow; f_equal.
  - apply map_eq. intros k. destruct (decide (k = id m)) as [->|Hne].
    + by rewrite lookup_alter_eq, lookup_insert_eq, Hrow.
    + by rewrite lookup_alter_ne, lookup_insert_ne.
  - by apply alter_id'.
Qed.

Lemma updateMessageStatus_redelivers_witness :
  let m := mkMessage "M1" "A" "me" "You" "ok" 1000 true Sent Text in
  let db := upsertMessage m emptyDb in
  messages db !! id m = Some (message_row m)
  /\ updateMessageStatus "M1" Read db
     = upsertMessage (mkMessage "M1" "A" "me" "You" "ok" 1000 true Read Text) db.
Proof.
  intros m db.
  assert (Hrow : messages db !! id m = Some (message_row m))
    by apply messages_upsertMessage.
  split; [exact Hrow|].
  destruct (updateMessageStatus_redelivers m Read db) as [Hre _].
  exact (Hre Hrow).
Defined.

End ReadViews.

(** * Further properties of content extraction *)

Section ExtractionBodies.

(** Induction on an envelope: the envelopes below it are the inner
    message of its first wrapper and the replacement content of its
    protocol message. *)
Lemma content_ind (P : WAMessageContent -> Prop) :
  (forall c,
     (forall m, innerMessage c = Some m -> P m) ->
     (forall pm m, protocolMessage c = Some pm -> protocolEdited pm = Some m -> P m) ->
     P c) ->
  forall c, P c.
Proof.
  intros Hstep. fix IH 1. intros c. apply Hstep.
  - intros m. destruct c as [e v v2 v2e d ed ? ? ? ? ? ? ? ? ? ? ? ? ? ? ? ? ? ? ? ? ? ? ? ? ? ? ?].
    unfold innerMessage; simpl.
    destruct e as [[[m1|]]|]; simpl; try (intros [= <-]; apply IH);
    destruct v as [[[m2|]]|]; simpl; try (intros [= <-]; apply IH);
    destruct v2 as [[[m3|]]|]; simpl; try (intros [= <-]; apply IH);
    destruct v2e as [[[m4|]]|]; simpl; try (intros [= <-]; apply IH);
    destruct d as [[[m5|]]|]; simpl; try (intros [= <-]; apply IH);
    destruct ed as [[[m6|]]|]; simpl; try (intros [= <-]; apply IH);
    discriminate.
  - intros pm m. destruct c as [? ? ? ? ? ? p ? ? ? ? ? ? ? ? ? ? ? ? ? ? ? ? ? ? ? ? ? ? ? ? ? ?].
    simpl. destruct p as [[ty [m1|]]|]; simpl; intros [= <-]; simpl;
      try discriminate. intros [= <-]. apply IH.
Qed.

Lemma or_default_nonempty o d : d <> "" -> JS.or_default o d <> "".
Proof.
  intros Hd. destruct o as [a|]; simpl; [|exact Hd].
  unfold JS.or. destruct (JS.truthy a) eqn:Ha; [by apply truthy_true | exact Hd].
Qed.

Lemma truthy_opt_default o : JS.truthy_opt o = true -> default "" o <> "".
Proof. destruct o as [a|]; simpl; [by intros ?%truthy_true | discriminate]. Qed.

(** Every row of the classification table gives a body. *)
Lemma actualContent_body c : ex_body (actualContent c) <> "".
Proof.
  unfold actualContent.
  repeat match goal with
         | |- context [if ?b then _ else _] =>
             let E := fresh "E" in destruct b eqn:E; simpl
         | |- context [match ?o with Some _ => _ | None => _ end] =>
             let E := fresh "E" in destruct o eqn:E; simpl
         | |- context [let '(_, _) := ?p in _] => destruct p; simpl
         end;
    try discriminate;
    try (apply or_default_nonempty; try apply or_default_nonempty; discriminate);
    try (by apply truthy_opt_default).
Qed.

(** X7. [extractContent] gives an empty body only as the "no content"
    result, with type [Unknown]; an envelope that gets to the
    classification table (no wrapper with an inner message, no
    protocol message, no key distribution on its own) always gets a
    body, the "unsupported" placeholder at worst. So a message the
    handlers keep never has an empty body. *)
Theorem extractContent_body (o : option WAMessageContent) :
  (ex_body (extractContent o) = "" -> extractContent o = sentinel)
  /\ (forall c, o = Some c ->
        innerMessage c = None -> protocolMessage c = None ->
        senderKeyDistributionMessage c = None
        \/ JS.truthy_opt (conversation c) = true
        \/ is_some (extendedTextMessage c) = true ->
        ex_body (extractContent o) <> "").
Proof.
  split.
  - destruct o as [c|]; [|reflexivity]. simpl.
    induction c as [c IHinner IHedit] using content_ind.
    rewrite extract_unfold.
    destruct (innerMessage c) as [m|] eqn:Hin; [by apply IHinner|].
    unfold afterUnwrap.
    destruct (protocolMessage c) as [pm|] eqn:Hpm.
    + case_bool_decide; [|reflexivity].
      destruct (protocolEdited pm) as [m|] eqn:Hm; [|reflexivity].
      by apply (IHedit pm).
    + match goal with |- context [if ?b then _ else _] => destruct b end;
        [reflexivity|].
      intros Hbody. by apply actualContent_body in Hbody.
  - intros c -> Hin Hpm Hkey. simpl.
    rewrite extract_unfold, Hin. unfold afterUnwrap. rewrite Hpm.
    assert (Hguard : is_some (senderKeyDistributionMessage c)
                     && negb (JS.truthy_opt (conversation c))
                     && negb (is_some (extendedTextMessage c)) = false).
    { destruct Hkey as [-> | [-> | ->]]; simpl;
        rewrite ?andb_false_r; reflexivity. }
    rewrite Hguard. apply actualContent_body.
Qed.

Lemma extractContent_body_witness :
  let sticker :=
    mkContent None None None None None None None None None None None None None
              None (Some tt) None None None None None None None None None None None
              None None None None None None None in
  (innerMessage sticker = None /\ protocolMessage sticker = None
   /\ senderKeyDistributionMessage sticker = None)
  /\ ex_body (extractContent (Some sticker)) <> "".
Proof.
  intros sticker.
  split; [repeat split|].
  destruct (extractContent_body (Some sticker)) as [_ Htable].
  apply (Htable sticker); try reflexivity. left. reflexivity.
Defined.

End ExtractionBodies.

(** * Further properties of the message handlers *)

Section MessageLoops.

Implicit Types (w : Service) (db : Db) (msg : WAMessage.t) (parsed : Message).

Lemma onMessage_parts msg w :
  onMessage msg w =
  match retained (clock w) msg with
  | Some parsed =>
      notifyChatsChanged (emit (EvMessage parsed) (with_db (storeLive msg parsed) w))
  | None => w
  end.
Proof.
  unfold onMessage, retained, skippedId.
  destruct (JS.truthy_opt (MessageKey.remoteJid (WAMessage.key msg))); simpl; [|done].
  case_bool_decide; [done|].
  destruct (parseMessage (clock w) msg) as [parsed|]; [|done].
  destruct (JS.truthy (body parsed)); simpl; [|done].
  unfold storeLive, capturePushName, chatOfMessage.
  destruct w as [s r cu d c n ts em]; simpl.
  destruct (isFromMe parsed); simpl; [reflexivity|].
  destruct (JS.truthy_opt (WAMessage.pushName msg)); simpl; [|reflexivity].
  match goal with
  | |- context [JS.truthy ?x && negb (bool_decide ?P)] =>
      destruct (JS.truthy x); simpl; [|reflexivity];
      destruct (bool_decide P); reflexivity
  end.
Qed.

Lemma syncMessage_parts now msg db :
  syncMessage now msg db =
  match retained now msg with
  | Some parsed => storeSynced msg parsed db
  | None => db
  end.
Proof.
  unfold syncMessage, retained.
  destruct (skippedId _); [done|].
  destruct (parseMessage now msg) as [parsed|]; [|done].
  destruct (JS.truthy (body parsed)); simpl; [|done].
  unfold storeSynced, capturePushName, chatOfMessage.
  destruct (isFromMe parsed); simpl; [reflexivity|].
  destruct (JS.truthy_opt (WAMessage.pushName msg)); simpl; [|reflexivity].
  by rewrite andb_true_r.
Qed.

(** What the guard of the loops lets through. *)
Lemma retained_Some now msg parsed :
  retained now msg = Some parsed <->
  JS.truthy_opt (MessageKey.remoteJid (WAMessage.key msg)) = true
  /\ MessageKey.remoteJid (WAMessage.key msg) <> Some "status@broadcast"
  /\ parseMessage now msg = Some parsed
  /\ body parsed <> "".
Proof.
  unfold retained, skippedId. split.
  - destruct (JS.truthy_opt _); simpl; [|done].
    case_bool_decide; [done|].
    destruct (parseMessage now msg) as [p|]; [|done].
    destruct (JS.truthy (body p)) eqn:Hb; [|done].
    intros [= <-]. by apply truthy_true in Hb.
  - intros (-> & Hcast & -> & Hbody). simpl.
    rewrite bool_decide_eq_false_2 by done.
    apply truthy_true in Hbody. by rewrite Hbody.
Qed.

Lemma parseMessage_Some now msg parsed :
  parseMessage now msg = Some parsed ->
  MessageKey.remoteJid (WAMessage.key msg) = Some (chatJid parsed)
  /\ chatJid parsed <> ""
  /\ body parsed = ex_body (extractContent (WAMessage.message msg))
  /\ type parsed = ex_type (extractContent (WAMessage.message msg))
  /\ isFromMe parsed = default false (MessageKey.fromMe (WAMessage.key msg)).
Proof.
  unfold parseMessage.
  destruct (MessageKey.remoteJid (WAMessage.key msg)) as [rj|] eqn:Hrj; simpl; [|done].
  destruct (JS.truthy rj) eqn:Ht; simpl; [|done].
  intros [= <-]; simpl. apply truthy_true in Ht. done.
Qed.

Lemma retained_chatJid now msg parsed :
  retained now msg = Some parsed ->
  chatJid parsed <> "" /\ chatJid parsed <> "status@broadcast" /\ body parsed <> "".
Proof.
  intros (_ & Hcast & Hparse & Hbody)%retained_Some.
  apply parseMessage_Some in Hparse as (Hrj & Hne & _).
  split; [done|]. split; [|done].
  intros Heq. apply Hcast. by rewrite Hrj, Heq.
Qed.

Lemma retained_None now msg :
  JS.truthy_opt (MessageKey.remoteJid (WAMessage.key msg)) = false
  \/ MessageKey.remoteJid (WAMessage.key msg) = Some "status@broadcast"
  \/ ex_body (extractContent (WAMessage.message msg)) = "" ->
  retained now msg = None.
Proof.
  intros Hdrop. destruct (retained now msg) as [parsed|] eqn:Hret; [|done].
  apply retained_Some in Hret as (Hrj & Hcast & Hparse & Hbody).
  apply parseMessage_Some in Hparse as (_ & _ & Hb & _).
  destruct Hdrop as [Hd | [Hd | Hd]]; congruence.
Qed.

(** X8. The loop of [messages.upsert] passes over a message that has no
    conversation identifier, that belongs to [status@broadcast], or
    whose content is extracted as the empty body: a batch of such
    messages leaves the service as it was, with no row written, no
    event emitted and no timer set. *)
Theorem onMessagesUpsert_drops (msgs : list WAMessage.t) (w : Service) :
  Forall (fun msg =>
            JS.truthy_opt (MessageKey.remoteJid (WAMessage.key msg)) = false
            \/ MessageKey.remoteJid (WAMessage.key msg) = Some "status@broadcast"
            \/ ex_body (extractContent (WAMessage.message msg)) = "") msgs ->
  onMessagesUpsert msgs w = w.
Proof.
  unfold onMessagesUpsert. induction 1 as [|msg msgs Hdrop _ IH]; simpl; [done|].
  by rewrite onMessage_parts, (retained_None _ _ Hdrop).
Qed.

Lemma onMessagesUpsert_drops_witness :
  let w := connect (newService emptyDb 0) in
  let status :=
    WAMessage.mk (MessageKey.mk (Some "status@broadcast") (Some false) (Some "S1") None)
                 (Some (plainText "story")) (Some (TsNumber 1)) (Some "Bob") None in
  let keys :=
    WAMessage.mk (MessageKey.mk (Some "A@s.whatsapp.net") (Some false) (Some "K1") None)
                 (Some (with_senderKeyDistributionMessage (Some tt) noContent))
                 (Some (TsNumber 2)) (Some "Alice") None in
  Forall (fun msg =>
            JS.truthy_opt (MessageKey.remoteJid (WAMessage.key msg)) = false
            \/ MessageKey.remoteJid (WAMessage.key msg) = Some "status@broadcast"
            \/ ex_body (extractContent (WAMessage.message msg)) = "") [status; keys]
  /\ onMessagesUpsert [status; keys] w = w.
Proof.
  intros w status keys.
  assert (Hdrop : Forall (fun msg =>
            JS.truthy_opt (MessageKey.remoteJid (WAMessage.key msg)) = false
            \/ MessageKey.remoteJid (WAMessage.key msg) = Some "status@broadcast"
            \/ ex_body (extractContent (WAMessage.message msg)) = "") [status; keys]).
  { apply Forall_cons_2; [right; left; reflexivity|].
    apply Forall_cons_2; [right; right; reflexivity|]. apply Forall_nil_2. }
  split; [exact Hdrop|].
  exact (onMessagesUpsert_drops [status; keys] w Hdrop).
Defined.

End MessageLoops.

Section LiveMessages.

Implicit Types (w : Service) (db : Db) (msg : WAMessage.t) (parsed : Message).

Lemma addressbookName_upsertContact_notify s p j db :
  addressbookName j (upsertContact s "" p db) = addressbookName j db.
Proof.
  unfold addressbookName. destruct (decide (s = j)) as [->|Hne].
  - rewrite contacts_upsertContact. by destruct (contacts db !! j).
  - unfold upsertContact, set_contacts; simpl.
    by rewrite lookup_insert_on_conflict_ne.
Qed.

(** The capture of the push name writes a notify name and nothing
    else. *)
Lemma capturePushName_frame live msg parsed db :
  chats (capturePushName live msg parsed db) = chats db
  /\ messages (capturePushName live msg parsed db) = messages db
  /\ forall j, addressbookName j (capturePushName live msg parsed db)
               = addressbookName j db.
Proof.
  unfold capturePushName.
  repeat match goal with
         | |- context [if ?b then _ else _] => destruct b
         end; repeat split; try done.
  intros j. apply addressbookName_upsertContact_notify.
Qed.



Lemma jidToPhoneNumber_nonempty j : j <> "" -> jidToPhoneNumber j <> "".
Proof.
  intros Hj. unfold jidToPhoneNumber.
  destruct (JS.truthy (before_at j)); [discriminate | exact Hj].
Qed.


Lemma chats_incrementUnreadCount j db :
  chats (incrementUnreadCount j db)
  = alter (fun r => mkChatRow (c_name r) (last_message r) (last_message_at r)
                              (unread_count r + 1) (is_group r)) j (chats db).
Proof. reflexivity. Qed.

(** The row of the conversation after the writes of the live loop. *)
Lemma chats_storeLive msg parsed db :
  let chat := chatOfMessage parsed (capturePushName true msg parsed db) in
  let row :=
    match chats db !! chatJid parsed with
    | Some stored => merge_chat stored (chat_row chat)
    | None => chat_row chat
    end in
  chats (storeLive msg parsed db) !! chatJid parsed
  = Some (if isFromMe parsed then row
          else mkChatRow (c_name row) (last_message row) (last_message_at row)
                         (unread_count row + 1) (is_group row))
  /\ (forall j, j <> chatJid parsed ->
        chats (storeLive msg parsed db) !! j = chats db !! j)
  /\ messages (storeLive msg parsed db) = <[id parsed := message_row parsed]> (messages db)
  /\ (forall j, addressbookName j (storeLive msg parsed db) = addressbookName j db).
Proof.
  intros chat row.
  destruct (capturePushName_frame true msg parsed db) as (Hchats & Hmsgs & Hbook).
  unfold storeLive.
  set (db1 := capturePushName true msg parsed db) in *.
  pose proof (chats_upsertChat chat db1) as Hrow.
  change (jid chat) with (chatJid parsed) in Hrow. rewrite Hchats in Hrow.
  fold row in Hrow.
  split; [|split; [|split]].
  - destruct (isFromMe parsed); cbv beta iota zeta delta [negb].
    + exact Hrow.
    + rewrite chats_incrementUnreadCount, lookup_alter_eq.
      change (chats (upsertMessage parsed (upsertChat (chatOfMessage parsed db1) db1)))
        with (chats (upsertChat chat db1)).
      by rewrite Hrow.
  - intros j Hj.
    assert (Hother : chats (upsertChat chat db1) !! j = chats db !! j).
    { rewrite <- Hchats. apply chats_upsertChat_ne. by apply not_eq_sym. }
    destruct (isFromMe parsed); cbv beta iota zeta delta [negb]; [exact Hother|].
    rewrite chats_incrementUnreadCount, lookup_alter_ne by done. exact Hother.
  - rewrite <- Hmsgs. by destruct (isFromMe parsed).
  - intros j. rewrite <- Hbook. by destruct (isFromMe parsed).
Qed.



End LiveMessages.

Section KeptMessage.

Implicit Types (w : Service) (msg : WAMessage.t) (parsed : Message).

Lemma emitted_notifyChatsChanged w : emitted (notifyChatsChanged w) = emitted w.
Proof. unfold notifyChatsChanged. by destruct (chatUpdateTimer w). Qed.

Lemma chatUpdateTimer_notifyChatsChanged w :
  is_Some (chatUpdateTimer (notifyChatsChanged w)).
Proof. unfold notifyChatsChanged. destruct (chatUpdateTimer w); simpl; eauto. Qed.

(** X10. A message the live loop keeps is stored under its identifier
    and announced once, at the time of the call, in a [message] event;
    the debounce timer is set; every other message and every other
    conversation stay as they are. The preview of its conversation
    becomes its body, and the timestamp its timestamp, when the
    conversation is new or was last written at an earlier timestamp;
    otherwise preview and timestamp stay. *)
Theorem onMessage_stores (msg : WAMessage.t) (w : Service) (parsed : Message) :
  JS.truthy_opt (MessageKey.remoteJid (WAMessage.key msg)) = true ->
  MessageKey.remoteJid (WAMessage.key msg) <> Some "status@broadcast" ->
  parseMessage (clock w) msg = Some parsed ->
  body parsed <> "" ->
  let w' := onMessage msg w in
  messages (db w') !! id parsed = Some (message_row parsed)
  /\ (forall k, k <> id parsed -> messages (db w') !! k = messages (db w) !! k)
  /\ (forall j, j <> chatJid parsed -> chats (db w') !! j = chats (db w) !! j)
  /\ emitted w' = (emitted w ++ [(clock w, EvMessage parsed)])%list
  /\ is_Some (chatUpdateTimer w')
  /\ exists row, chats (db w') !! chatJid parsed = Some row
       /\ match chats (db w) !! chatJid parsed with
          | Some stored =>
              if timestamp parsed >? last_message_at stored
              then last_message row = body parsed
                   /\ last_message_at row = timestamp parsed
              else last_message row = last_message stored
                   /\ last_message_at row = last_message_at stored
          | None =>
              last_message row = body parsed /\ last_message_at row = timestamp parsed
          end.
Proof.
  intros Hrj Hcast Hparse Hbody w'.
  assert (Hret : retained (clock w) msg = Some parsed) by by apply retained_Some.
  unfold w'. rewrite onMessage_parts, Hret.
  rewrite db_notifyChatsChanged, emitted_notifyChatsChanged.
  change (db (emit (EvMessage parsed) (with_db (storeLive msg parsed) w)))
    with (storeLive msg parsed (db w)).
  destruct (chats_storeLive msg parsed (db w)) as (Hrow & Hother & Hmsgs & _).
  split; [by rewrite Hmsgs, lookup_insert_eq|].
  split; [intros k Hk; by rewrite Hmsgs, lookup_insert_ne|].
  split; [exact Hother|].
  split; [reflexivity|].
  split; [apply chatUpdateTimer_notifyChatsChanged|].
  eexists. split; [exact Hrow|].
  assert (Hpreview : forall db1, lastMessage (chatOfMessage parsed db1) = body parsed).
  { intros db1. unfold chatOfMessage; simpl. apply or_truthy. by apply truthy_true. }
  assert (Hat : forall db1, lastMessageAt (chatOfMessage parsed db1) = timestamp parsed)
    by reflexivity.
  remember (chatOfMessage parsed (capturePushName true msg parsed (db w))) as chat
    eqn:Hchat.
  specialize (Hpreview (capturePushName true msg parsed (db w))).
  specialize (Hat (capturePushName true msg parsed (db w))).
  rewrite <- Hchat in Hpreview, Hat. clear Hchat Hrow.
  destruct (chats (db w) !! chatJid parsed) as [stored|];
    destruct (isFromMe parsed); unfold merge_chat, chat_row; simpl;
    rewrite ?Hpreview, ?Hat, ?Z.gtb_ltb;
    try destruct (Z.ltb_spec (last_message_at stored) (timestamp parsed));
    split; reflexivity || lia.
Qed.

Lemma onMessage_stores_witness :
  let w := connect (newService emptyDb 0) in
  let msg :=
    WAMessage.mk (MessageKey.mk (Some "4915@s.whatsapp.net") (Some false) (Some "M1") None)
                 (Some (plainText "hi")) (Some (TsNumber 1)) None None in
  let parsed :=
    mkMessage "M1" "4915@s.whatsapp.net" "4915@s.whatsapp.net" "+4915" "hi" 1000
              false Sent Text in
  parseMessage (clock w) msg = Some parsed
  /\ messages (db (onMessage msg w)) !! "M1" = Some (message_row parsed)
  /\ emitted (onMessage msg w) = (emitted w ++ [(0, EvMessage parsed)])%list.
Proof.
  intros w msg parsed.
  assert (Hparse : parseMessage (clock w) msg = Some parsed) by reflexivity.
  split; [exact Hparse|].
  destruct (onMessage_stores msg w parsed eq_refl) as (Hstored & _ & _ & Hev & _);
    [discriminate | exact Hparse | discriminate |].
  split; [exact Hstored | exact Hev].
Defined.

End KeptMessage.

(** * Properties of the engine as a whole *)

Section StoreSteps.

Variable loggedOut : Z.

Implicit Types (w : Service) (db : Db).

Lemma db_with_db f w : db (with_db f w) = f (db w).
Proof. reflexivity. Qed.

Lemma db_fire t w : db (fire t w) = db w.
Proof. unfold fire. by destruct (action t). Qed.

Lemma db_runTimers fuel T w : db (runTimers fuel T w) = db w.
Proof.
  revert w. induction fuel as [|fuel IH]; intros w; simpl; [done|].
  destruct (earliest (timers w)) as [t|]; [|done].
  destruct (due t <=? T); [|done]. by rewrite IH, db_fire.
Qed.

Lemma db_advance T w : db (advance T w) = db w.
Proof. unfold advance; simpl. apply db_runTimers. Qed.

Lemma db_onConnectionUpdate u w : db (onConnectionUpdate loggedOut u w) = db w.
Proof.
  unfold onConnectionUpdate.
  repeat match goal with
         | |- context [if ?b then _ else _] => destruct b; simpl
         end; reflexivity.
Qed.

Lemma db_sendMessage j text outcome w :
  db (snd (sendMessage j text outcome w)) = db w
  \/ exists m chat, jid chat = chatJid m
       /\ db (snd (sendMessage j text outcome w)) = upsertChat chat (upsertMessage m (db w)).
Proof.
  unfold sendMessage. destruct (sock w); simpl; [|by left].
  destruct outcome; simpl; [by left | by left |].
  right. do 2 eexists. split; [|reflexivity]. reflexivity.
Qed.

Lemma skippedId_false o :
  skippedId o = false -> exists j, o = Some j /\ j <> "" /\ j <> "status@broadcast".
Proof.
  unfold skippedId. destruct o as [j|]; simpl; [|done].
  destruct (JS.truthy j) eqn:Hj; simpl; [|done].
  case_bool_decide as Hcast; [done|]. intros _. exists j.
  split; [done|]. split; [by apply truthy_true | congruence].
Qed.

(** Every input changes the store by a sequence of the writes below;
    a property of all of them that is reflexive and transitive is a
    property of the step. *)
Lemma step_db (P : Db -> Db -> Prop) (i : Input) (w : Service) :
  (forall db, P db db) ->
  (forall a b c, P a b -> P b c -> P a c) ->
  (forall chat db, jid chat <> "" -> jid chat <> "status@broadcast" ->
     P db (upsertChat chat db)) ->
  (forall j n f db, P db (upsertContact j n f db)) ->
  (forall j n db, n <> "" -> P db (updateChatName j n db)) ->
  (forall j db, P db (resetUnreadCount j db)) ->
  (forall j db, P db (incrementUnreadCount j db)) ->
  (forall m chat db, jid chat = chatJid m -> body m <> "" ->
     chatJid m <> "" -> chatJid m <> "status@broadcast" ->
     P db (upsertMessage m (upsertChat chat db))) ->
  (isSend i = true -> forall m chat db, jid chat = chatJid m ->
     P db (upsertChat chat (upsertMessage m db))) ->
  P (db w) (db (step loggedOut i w)).
Proof.
  intros Hrefl Htrans Hchat Hcontact Hname Hreset Hincr Hwrite Hsend.
  assert (Heach : forall A (body : A -> Db -> Db) items,
            (forall x db, P db (body x db)) ->
            forall db, P db (forEach body items db)).
  { intros A body items Hbody. unfold forEach.
    induction items as [|x items IH]; intros db; simpl; [apply Hrefl|].
    eapply Htrans; [apply Hbody | apply IH]. }
  assert (HsyncChat : forall c db, P db (syncChat c db)).
  { intros c db. unfold syncChat.
    destruct (skippedId (WAChat.id c)) eqn:Hid; [apply Hrefl|].
    apply skippedId_false in Hid as (j & -> & Hj & Hcast). by apply Hchat. }
  assert (HupdateChat : forall c db, P db (updateChat c db)).
  { intros c db. unfold updateChat.
    destruct (skippedId (WAChat.id c)) eqn:Hid; [apply Hrefl|].
    apply skippedId_false in Hid as (j & -> & Hj & Hcast).
    destruct (JS.truthy_opt (WAChat.name c)) eqn:Hn.
    - eapply Htrans; [|apply Hname; by apply truthy_opt_default]. by apply Hchat.
    - by apply Hchat. }
  assert (HsyncContact : forall c db, P db (syncContact c db)).
  { intros c db. unfold syncContact. destruct (skippedId _); [apply Hrefl | apply Hcontact]. }
  assert (HupdateContact : forall c db, P db (updateContact c db)).
  { intros c db. unfold updateContact. destruct (negb _); [apply Hrefl | apply Hcontact]. }
  assert (Hcapture : forall live msg parsed db, P db (capturePushName live msg parsed db)).
  { intros live msg parsed db. unfold capturePushName.
    repeat match goal with
           | |- context [if ?b then _ else _] => destruct b
           end; apply Hrefl || apply Hcontact. }
  assert (Hkept : forall now msg parsed db1,
            retained now msg = Some parsed ->
            P db1 (upsertMessage parsed (upsertChat (chatOfMessage parsed db1) db1))).
  { intros now msg parsed db1 (Hjid & Hcast & Hbody)%retained_chatJid.
    by apply Hwrite. }
  assert (HsyncMessage : forall now msg db, P db (syncMessage now msg db)).
  { intros now msg db. rewrite syncMessage_parts.
    destruct (retained now msg) as [parsed|] eqn:Hret; [|apply Hrefl].
    unfold storeSynced. eapply Htrans; [apply Hcapture | by eapply Hkept]. }
  assert (Hlive : forall msg w0, P (db w0) (db (onMessage msg w0))).
  { intros msg w0. rewrite onMessage_parts.
    destruct (retained (clock w0) msg) as [parsed|] eqn:Hret; [|apply Hrefl].
    rewrite db_notifyChatsChanged.
    change (db (emit (EvMessage parsed) (with_db (storeLive msg parsed) w0)))
      with (storeLive msg parsed (db w0)).
    unfold storeLive. eapply Htrans; [apply Hcapture|].
    destruct (isFromMe parsed); cbv beta iota zeta delta [negb].
    - by eapply Hkept.
    - eapply Htrans; [by eapply Hkept | apply Hincr]. }
  destruct i; unfold step.
  - apply Hrefl.
  - apply Hrefl.
  - rewrite db_onConnectionUpdate. apply Hrefl.
  - clear Hsend. unfold onMessagesUpsert. revert w.
    induction msgs as [|msg msgs IH]; intros w; simpl; [apply Hrefl|].
    eapply Htrans; [|apply IH]. apply Hlive.
  - unfold onHistorySet. rewrite db_notifyChatsChanged, !db_with_db.
    eapply Htrans; [|apply Heach; intros; apply HsyncMessage].
    eapply Htrans; [|apply Heach; intros; apply HsyncContact].
    apply Heach; intros; apply HsyncChat.
  - unfold onChatsUpsert. rewrite db_notifyChatsChanged, db_with_db. by apply Heach.
  - unfold onChatsUpdate. rewrite db_notifyChatsChanged, db_with_db. by apply Heach.
  - unfold onContactsUpsert. rewrite db_notifyChatsChanged, db_with_db. by apply Heach.
  - unfold onContactsUpdate. rewrite db_notifyChatsChanged, db_with_db. by apply Heach.
  - destruct (db_sendMessage jid0 text outcome w) as [-> | (m & chat & Hjid & ->)];
      [apply Hrefl | by apply Hsend].
  - rewrite db_with_db. apply Hreset.
  - rewrite db_advance. apply Hrefl.
Qed.

Lemma run_db (P : Db -> Db -> Prop) (inputs : list Input) :
  (forall db, P db db) ->
  (forall a b c, P a b -> P b c -> P a c) ->
  (forall i w, i ∈ inputs -> P (db w) (db (step loggedOut i w))) ->
  forall w, P (db w) (db (run loggedOut inputs w)).
Proof.
  intros Hrefl Htrans. unfold run.
  induction inputs as [|i inputs IH]; intros Hstep w; simpl; [apply Hrefl|].
  eapply Htrans; [apply Hstep, list_elem_of_here|].
  apply IH. intros i' w' Hin. apply Hstep. by apply list_elem_of_further.
Qed.

End StoreSteps.

Section StoreGrows.

Implicit Types (db : Db).

Lemma storeGrows_refl db : storeGrows db db.
Proof. repeat split; eauto. intros j row Hrow. exists row. split; [done|]. split; [lia | done]. Qed.

Lemma storeGrows_trans a b c : storeGrows a b -> storeGrows b c -> storeGrows a c.
Proof.
  intros (Hc1 & Hm1 & Ha1 & Hn1) (Hc2 & Hm2 & Ha2 & Hn2). repeat split; eauto.
  intros j row Hrow.
  destruct (Hc1 _ _ Hrow) as (row1 & Hrow1 & Hle1 & Hname1).
  destruct (Hc2 _ _ Hrow1) as (row2 & Hrow2 & Hle2 & Hname2).
  exists row2. split; [done|]. split; [lia | eauto].
Qed.

Lemma storeGrows_upsertChat chat db : storeGrows db (upsertChat chat db).
Proof.
  repeat split; eauto. intros j row Hrow.
  destruct (decide (jid chat = j)) as [<-|Hne].
  - rewrite chats_upsertChat, Hrow. eexists. split; [reflexivity|].
    unfold merge_chat; simpl. split; [lia|].
    intros Hname. destruct (JS.truthy (name chat)) eqn:Hn; [by apply truthy_true | done].
  - rewrite chats_upsertChat_ne by done. exists row.
    split; [done|]. split; [lia | done].
Qed.

Lemma storeGrows_upsertContact j n f db : storeGrows db (upsertContact j n f db).
Proof.
  split; [|split; [done|]].
  - intros k row Hrow. exists row. split; [done|]. split; [lia | done].
  - unfold addressbookName, notifyName.
    split; intros k Hk; (destruct (decide (j = k)) as [<-|Hne];
      [ rewrite contacts_upsertContact;
        destruct (contacts db !! j) as [stored|]; simpl in *; [|done];
        match goal with
        | |- (if ?b then _ else _) <> _ => destruct b eqn:Hb; [by apply truthy_true | done]
        end
      | unfold upsertContact, set_contacts; simpl;
        by rewrite lookup_insert_on_conflict_ne ]).
Qed.

Lemma storeGrows_alter_chat (f : ChatRow -> ChatRow) j db :
  (forall r, last_message_at r <= last_message_at (f r)
             /\ (c_name r <> "" -> c_name (f r) <> "")) ->
  storeGrows db (set_chats (update_where j f) db).
Proof.
  intros Hf. repeat split; eauto. intros k row Hrow. simpl. unfold update_where.
  destruct (decide (j = k)) as [<-|Hne].
  - rewrite lookup_alter_eq, Hrow. simpl. exists (f row). split; [done|]. apply Hf.
  - rewrite lookup_alter_ne by done. exists row. split; [done|]. split; [lia | done].
Qed.

Lemma storeGrows_upsertMessage m db : storeGrows db (upsertMessage m db).
Proof.
  split; [|split; [|done]].
  - intros k row Hrow. exists row. split; [done|]. split; [lia | done].
  - intros k Hk. simpl. destruct (decide (k = id m)) as [->|Hne].
    + rewrite lookup_insert_eq. eauto.
    + by rewrite lookup_insert_ne.
Qed.

(** X11. Whatever happens to a service, its store keeps what it has:
    after any sequence of inputs every conversation is still stored,
    its last-message timestamp is not lower than before and it still
    has a name if it had one; every message is still stored; and a
    contact that had an addressbook name or a notify name still has
    one. *)
Theorem run_store_grows (loggedOut : Z) (inputs : list Input) (w : Service) :
  storeGrows (db w) (db (run loggedOut inputs w)).
Proof.
  apply run_db; [apply storeGrows_refl | apply storeGrows_trans|].
  intros i w' _.
  apply step_db; try (apply storeGrows_refl || apply storeGrows_trans).
  - intros. apply storeGrows_upsertChat.
  - intros. apply storeGrows_upsertContact.
  - intros j n db Hn. apply (storeGrows_alter_chat _ j db).
    intros r; simpl. split; [lia | done].
  - intros j db. apply (storeGrows_alter_chat _ j db).
    intros r; simpl. split; [lia | done].
  - intros j db. apply (storeGrows_alter_chat _ j db).
    intros r; simpl. split; [lia | done].
  - intros. eapply storeGrows_trans; [apply storeGrows_upsertChat | apply storeGrows_upsertMessage].
  - intros. eapply storeGrows_trans; [apply storeGrows_upsertMessage | apply storeGrows_upsertChat].
Qed.

Lemma chats_grow db db' c :
  storeGrows db db' -> is_Some (chats db !! c) -> is_Some (chats db' !! c).
Proof. intros (Hc & _) [row Hrow]. destruct (Hc _ _ Hrow) as (row' & -> & _). eauto. Qed.

(** X12. Every stored message belongs to a stored conversation, and no
    input breaks that: the handlers write the conversation before the
    message, and an outbound send writes both. *)
Theorem run_messagesHaveChats (loggedOut : Z) (inputs : list Input) (w : Service) :
  messagesHaveChats (db w) -> messagesHaveChats (db (run loggedOut inputs w)).
Proof.
  apply (run_db loggedOut (fun a b => messagesHaveChats a -> messagesHaveChats b));
    [done | by eauto |].
  intros i w' _.
  assert (Hsame : forall a b, storeGrows a b -> messages b = messages a ->
            messagesHaveChats a -> messagesHaveChats b).
  { intros a b Hgrow Hmsgs Hinv k row Hrow. rewrite Hmsgs in Hrow.
    eapply chats_grow; eauto. }
  apply (step_db loggedOut (fun a b => messagesHaveChats a -> messagesHaveChats b));
    [done | by eauto | ..].
  - intros chat db _ _. by apply Hsame; [apply storeGrows_upsertChat|].
  - intros j n f db. by apply Hsame; [apply storeGrows_upsertContact|].
  - intros j n db Hn. apply Hsame; [|done].
    apply (storeGrows_alter_chat _ j db). intros r; simpl. split; [lia | done].
  - intros j db. apply Hsame; [|done].
    apply (storeGrows_alter_chat _ j db). intros r; simpl. split; [lia | done].
  - intros j db. apply Hsame; [|done].
    apply (storeGrows_alter_chat _ j db). intros r; simpl. split; [lia | done].
  - intros m chat db Hjid _ _ _ Hinv k row. simpl.
    destruct (decide (k = id m)) as [->|Hne].
    + rewrite lookup_insert_eq. intros [= <-]. simpl.
      rewrite <- Hjid, lookup_insert_on_conflict. eauto.
    + rewrite lookup_insert_ne by done. intros Hrow.
      apply (chats_grow db (upsertChat chat db)); [apply storeGrows_upsertChat|].
      by eapply Hinv.
  - intros _ m chat db Hjid Hinv k row. simpl.
    destruct (decide (k = id m)) as [->|Hne].
    + rewrite lookup_insert_eq. intros [= <-]. simpl.
      rewrite <- Hjid, lookup_insert_on_conflict. eauto.
    + rewrite lookup_insert_ne by done. intros Hrow.
      apply (chats_grow db (upsertChat chat db)); [apply storeGrows_upsertChat|].
      by eapply Hinv.
Qed.

Lemma run_messagesHaveChats_witness :
  let msg :=
    WAMessage.mk (MessageKey.mk (Some "4915@s.whatsapp.net") (Some false) (Some "M1") None)
                 (Some (plainText "hi")) (Some (TsNumber 1)) None None in
  let inputs :=
    [InConnect; InMessagesUpsert [msg];
     InSendMessage "4916@s.whatsapp.net" "ok" (SendOk (Some "M2")); InAdvance 500] in
  messagesHaveChats emptyDb
  /\ messagesHaveChats (db (run 401 inputs (newService emptyDb 0))).
Proof.
  intros msg inputs.
  assert (Hempty : messagesHaveChats emptyDb).
  { intros k row Hrow. simpl in Hrow. rewrite lookup_empty in Hrow. discriminate Hrow. }
  split; [exact Hempty|].
  exact (run_messagesHaveChats 401 inputs (newService emptyDb 0) Hempty).
Defined.



End StoreGrows.

Section Control.

Variable loggedOut : Z.

Implicit Types (w : Service) (t : Timer) (ts : list Timer).

Lemma same_handle ts t u :
  NoDup (handle <$> ts) -> t ∈ ts -> u ∈ ts -> handle t = handle u -> t = u.
Proof.
  induction ts as [|a ts IH]; intros Hnd Ht Hu Heq; [by apply elem_of_nil in Ht|].
  rewrite fmap_cons in Hnd. apply NoDup_cons in Hnd as [Hnotin Hnd].
  apply elem_of_cons in Ht as [->|Ht]; apply elem_of_cons in Hu as [->|Hu]; try done.
  - exfalso. apply Hnotin. rewrite Heq. by apply list_elem_of_fmap_2.
  - exfalso. apply Hnotin. rewrite <- Heq. by apply list_elem_of_fmap_2.
  - by apply IH.
Qed.

Lemma filter_all {A} (P : A -> Prop) `{!forall x, Decision (P x)} (l : list A) :
  (forall x, x ∈ l -> P x) -> filter P l = l.
Proof.
  induction l as [|a l IH]; intros Hall; [done|].
  rewrite filter_cons_True by (apply Hall, list_elem_of_here).
  f_equal. apply IH. intros x Hx. by apply Hall, list_elem_of_further.
Qed.

Lemma filter_none {A} (P : A -> Prop) `{!forall x, Decision (P x)} (l : list A) :
  (forall x, x ∈ l -> ~ P x) -> filter P l = [].
Proof.
  induction l as [|a l IH]; intros Hall; [done|].
  rewrite filter_cons_False by (apply Hall, list_elem_of_here).
  apply IH. intros x Hx. by apply Hall, list_elem_of_further.
Qed.

Lemma filter_swap {A} (P Q : A -> Prop)
    `{!forall x, Decision (P x)} `{!forall x, Decision (Q x)} (l : list A) :
  filter P (filter Q l) = filter Q (filter P l).
Proof.
  rewrite !list_filter_filter. apply list_filter_iff. intros x. tauto.
Qed.

(** What removing the timers of one handle leaves. *)
Lemma timers_removed h ts (n : nat) :
  Forall (fun t => (handle t < n)%nat) ts -> NoDup (handle <$> ts) ->
  Forall (fun t => (handle t < n)%nat) (filter (fun t => handle t <> h) ts)
  /\ NoDup (handle <$> filter (fun t => handle t <> h) ts).
Proof.
  intros Hb Hnd. split.
  - apply Forall_forall. intros t [_ Ht]%list_elem_of_filter.
    rewrite Forall_forall in Hb. by apply Hb.
  - eapply sublist_NoDup; [exact Hnd|]. apply fmap_sublist, sublist_filter.
Qed.

Lemma timers_added ts (n : nat) d act :
  Forall (fun t => (handle t < n)%nat) ts -> NoDup (handle <$> ts) ->
  Forall (fun t => (handle t < S n)%nat) (ts ++ [mkTimer n d act])%list
  /\ NoDup (handle <$> (ts ++ [mkTimer n d act])%list).
Proof.
  intros Hb Hnd. split.
  - apply Forall_app. split; [|by repeat constructor; simpl; lia].
    eapply Forall_impl; [exact Hb|]. simpl. intros; lia.
  - rewrite fmap_app. apply NoDup_app. split; [done|]. split; [|apply NoDup_singleton].
    intros x Hx Hin. apply list_elem_of_singleton in Hin as ->.
    apply list_elem_of_fmap in Hx as (t & Heq & Ht).
    rewrite Forall_forall in Hb. specialize (Hb t Ht). simpl in Heq. lia.
Qed.

Lemma controlOk_frame w w' :
  retryCount w' = retryCount w -> timers w' = timers w ->
  nextHandle w' = nextHandle w -> chatUpdateTimer w' = chatUpdateTimer w ->
  clock w <= clock w' ->
  controlOk w -> controlOk w'.
Proof.
  unfold controlOk, timersOk, timersSoon, pendingNotifications.
  intros -> -> -> -> Hclock (Hr & Hok & Hsoon). split; [done|]. split; [done|].
  eapply Forall_impl; [exact Hsoon|]. simpl. intros; lia.
Qed.

Lemma controlOk_notifyChatsChanged w : controlOk w -> controlOk (notifyChatsChanged w).
Proof.
  destruct w as [s r cu d c n ts em].
  unfold controlOk, timersOk, timersSoon, notifyChatsChanged, pendingNotifications; simpl.
  intros (Hr & (Hb & Hnd & Hpn) & Hsoon).
  destruct cu as [h|]; simpl in *; (split; [done|]).
  - destruct (timers_removed h ts n Hb Hnd) as [Hb' Hnd'].
    destruct (timers_added _ n (c + 300) EmitChatsChanged Hb' Hnd') as [Hb'' Hnd''].
    split; [split; [done|split; [done|]]|].
    + rewrite filter_app, filter_swap.
      destruct (filter (fun t => action t = EmitChatsChanged) ts) as [|t [|u pn]];
        simpl in Hpn; try discriminate.
      injection Hpn as Hh.
      rewrite filter_cons_False by (simpl; intros Hne; by apply Hne).
      by rewrite filter_nil.
    + apply Forall_app. split; [|by repeat constructor; simpl; lia].
      apply Forall_forall. intros t [_ Ht]%list_elem_of_filter.
      rewrite Forall_forall in Hsoon. by apply Hsoon.
  - destruct (timers_added _ n (c + 300) EmitChatsChanged Hb Hnd) as [Hb'' Hnd''].
    split; [split; [done|split; [done|]]|].
    + rewrite filter_app.
      destruct (filter (fun t => action t = EmitChatsChanged) ts); [done | discriminate].
    + apply Forall_app. split; [done|]. by repeat constructor; simpl; lia.
Qed.

Lemma controlOk_fire t w : controlOk w -> t ∈ timers w -> controlOk (fire t w).
Proof.
  destruct w as [s r cu d c n ts em].
  unfold controlOk, timersOk, timersSoon, fire, pendingNotifications; simpl.
  intros (Hr & (Hb & Hnd & Hpn) & Hsoon) Hin.
  destruct (timers_removed (handle t) ts n Hb Hnd) as [Hb' Hnd'].
  assert (Hsoon' : Forall (fun u => due u <= Z.max c (due t) +
                     match action u with Reconnect => 5000 | EmitChatsChanged => 300 end)
                     (filter (fun u => handle u <> handle t) ts)).
  { apply Forall_forall. intros u [_ Hu]%list_elem_of_filter.
    rewrite Forall_forall in Hsoon. specialize (Hsoon u Hu). simpl in Hsoon. lia. }
  destruct (action t) eqn:Hact; simpl.
  - split; [done|]. split; [|done]. split; [done|]. split; [done|].
    rewrite filter_swap.
    assert (Htpn : t ∈ filter (fun u => action u = EmitChatsChanged) ts)
      by by apply list_elem_of_filter.
    rewrite filter_none; [done|].
    intros u Hu Hne. apply Hne. f_equal.
    apply list_elem_of_filter in Hu as [Hua Hu].
    destruct (filter (fun u => action u = EmitChatsChanged) ts) as [|a [|b pn]] eqn:Hf;
      destruct cu; simpl in Hpn; try discriminate.
    + by apply elem_of_nil in Htpn.
    + apply list_elem_of_singleton in Htpn as ->.
      assert (Hua' : u ∈ filter (fun u => action u = EmitChatsChanged) ts)
        by by apply list_elem_of_filter.
      rewrite Hf in Hua'. by apply list_elem_of_singleton in Hua' as ->.
  - split; [done|]. split; [|done]. split; [done|]. split; [done|].
    rewrite filter_swap, filter_all; [done|].
    intros u [Hua Hu]%list_elem_of_filter Heq.
    assert (u = t) as -> by (by apply (same_handle ts)).
    congruence.
Qed.

Lemma controlOk_runTimers fuel T w : controlOk w -> controlOk (runTimers fuel T w).
Proof.
  revert w. induction fuel as [|fuel IH]; intros w Hok; simpl; [done|].
  destruct (earliest (timers w)) as [t|] eqn:Ht; [|done].
  destruct (due t <=? T); [|done].
  apply IH, controlOk_fire; [done|]. by apply earliest_Some in Ht as [Hin _].
Qed.

Lemma controlOk_advance T w : controlOk w -> controlOk (advance T w).
Proof.
  intros Hok. unfold advance.
  eapply controlOk_frame; [..|by apply (controlOk_runTimers (length (timers w)) T)];
    simpl; try done. lia.
Qed.

Lemma controlOk_onConnectionUpdate u w :
  controlOk w -> controlOk (onConnectionUpdate loggedOut u w).
Proof.
  destruct w as [s r cu d c n ts em].
  unfold onConnectionUpdate, controlOk, timersOk, timersSoon, pendingNotifications,
    maxRetries.
  intros (Hr & (Hb & Hnd & Hpn) & Hsoon); simpl in *.
  destruct (JS.truthy_opt (qr u)); simpl;
    destruct (bool_decide (connection u = Some ConnClose)); simpl;
    try destruct (bool_decide (statusCode u = Some loggedOut)); simpl;
    try destruct (Z.ltb_spec r 5); simpl;
    destruct (bool_decide (connection u = Some ConnOpen)); simpl;
    try (split; [lia|]; split; [done|done]);
    destruct (timers_added ts n (c + Z.min (1000 * (r + 1)) 10000) Reconnect Hb Hnd)
      as [Hb' Hnd'];
    (split; [lia|]); (split; [split; [done|split; [done|]]|]);
    try (rewrite filter_app; simpl; rewrite filter_cons_False by (by simpl);
         by rewrite filter_nil, app_nil_r);
    (apply Forall_app; split; [done|]; repeat constructor; simpl; lia).
Qed.

(** Every input acts on the retries and the timers through the
    operations below; what all of them keep, the step keeps. *)
Lemma step_control (Q : Service -> Prop) (i : Input) (w : Service) :
  (forall w f, Q w -> Q (with_db f w)) ->
  (forall w ev, Q w -> Q (emit ev w)) ->
  (forall w b, Q w -> Q (set_sock b w)) ->
  (forall w, Q w -> Q (notifyChatsChanged w)) ->
  (forall w u, Q w -> Q (onConnectionUpdate loggedOut u w)) ->
  (forall w T, Q w -> Q (advance T w)) ->
  Q w -> Q (step loggedOut i w).
Proof.
  intros Hdb Hemit Hsock Hnotify Hconn Hadv Hw.
  destruct i; unfold step.
  - unfold connect. by apply Hsock, Hemit.
  - unfold disconnect. by apply Hsock.
  - by apply Hconn.
  - unfold onMessagesUpsert. revert w Hw.
    induction msgs as [|msg msgs IH]; intros w Hw; simpl; [done|].
    apply IH. rewrite onMessage_parts.
    destruct (retained (clock w) msg); [|done].
    by apply Hnotify, Hemit, Hdb.
  - unfold onHistorySet. by apply Hnotify, Hdb, Hdb, Hdb.
  - unfold onChatsUpsert. by apply Hnotify, Hdb.
  - unfold onChatsUpdate. by apply Hnotify, Hdb.
  - unfold onContactsUpsert. by apply Hnotify, Hdb.
  - unfold onContactsUpdate. by apply Hnotify, Hdb.
  - unfold sendMessage. destruct (sock w); simpl; [|done].
    destruct outcome; simpl; [done | done |]. by apply Hdb, Hdb.
  - by apply Hdb.
  - by apply Hadv.
Qed.

Lemma run_controlOk (inputs : list Input) (w : Service) :
  controlOk w -> controlOk (run loggedOut inputs w).
Proof.
  unfold run. revert w. induction inputs as [|i inputs IH]; intros w Hw; simpl; [done|].
  apply IH. apply step_control; [| | | | | |exact Hw].
  - intros w0 f Hq. eapply controlOk_frame; [..|exact Hq]; simpl; done || lia.
  - intros w0 ev Hq. eapply controlOk_frame; [..|exact Hq]; simpl; done || lia.
  - intros w0 b Hq. eapply controlOk_frame; [..|exact Hq]; simpl; done || lia.
  - apply controlOk_notifyChatsChanged.
  - intros w0 u. apply controlOk_onConnectionUpdate.
  - intros w0 T. apply controlOk_advance.
Qed.

Lemma controlOk_newService db now : controlOk (newService db now).
Proof.
  unfold controlOk, timersOk, timersSoon, maxRetries; simpl.
  split; [lia|]. split; [|constructor]. split; [constructor|]. split; [constructor | done].
Qed.

End Control.

(** X14. The retry counter of a service never leaves the range from 0
    to 5, whatever sequence of inputs the service goes through, and a
    pending reconnect is never due more than 5000 ms ahead: the cap of
    10000 ms of the backoff does not come into play. *)
Theorem retries_stay_bounded (loggedOut : Z) (db0 : Db) (now : Z)
    (inputs : list Input) :
  let w := run loggedOut inputs (newService db0 now) in
  0 <= retryCount w <= maxRetries
  /\ (forall t, t ∈ pendingReconnects w ->
        due t <= clock w + 5000
        /\ due t <= clock w + Z.min (1000 * maxRetries) 10000).
Proof.
  intros w.
  destruct (run_controlOk loggedOut inputs _ (controlOk_newService db0 now))
    as (Hr & _ & Hsoon).
  fold w in Hr, Hsoon. split; [exact Hr|].
  intros t [Hact Hin]%list_elem_of_filter.
  unfold timersSoon in Hsoon. rewrite Forall_forall in Hsoon.
  specialize (Hsoon t Hin). rewrite Hact in Hsoon.
  unfold maxRetries. simpl. lia.
Qed.

(** X15. Whatever sequence of inputs a service goes through, at most
    one [chats-changed] timer is pending; [chatUpdateTimer] holds its
    handle, and holds nothing exactly when none is pending; the timer
    is due at most 300 ms ahead; and no two pending timers share a
    handle, so clearing one timer never clears another. *)
Theorem one_pending_notification (loggedOut : Z) (db0 : Db) (now : Z)
    (inputs : list Input) :
  let w := run loggedOut inputs (newService db0 now) in
  (length (pendingNotifications w) <= 1)%nat
  /\ (chatUpdateTimer w = None <-> pendingNotifications w = [])
  /\ (forall t, t ∈ pendingNotifications w ->
        chatUpdateTimer w = Some (handle t) /\ due t <= clock w + 300)
  /\ NoDup (handle <$> timers w).
Proof.
  intros w.
  destruct (run_controlOk loggedOut inputs _ (controlOk_newService db0 now))
    as (_ & (_ & Hnd & Hpn) & Hsoon).
  fold w in Hnd, Hpn, Hsoon.
  assert (Hdue : forall t, t ∈ pendingNotifications w -> due t <= clock w + 300).
  { intros t [Hact Hin]%list_elem_of_filter.
    unfold timersSoon in Hsoon. rewrite Forall_forall in Hsoon.
    specialize (Hsoon t Hin). by rewrite Hact in Hsoon. }
  destruct (pendingNotifications w) as [|t [|u pn]] eqn:Hpending;
    destruct (chatUpdateTimer w) as [h|]; simpl in Hpn; try discriminate.
  - split; [simpl; lia|]. split; [done|]. split; [|done].
    intros t Ht. by apply elem_of_nil in Ht.
  - injection Hpn as <-. split; [simpl; lia|]. split; [done|]. split; [|done].
    intros t' ->%list_elem_of_singleton. split; [done|].
    apply Hdue, list_elem_of_here.
Qed.

Section TwoBursts.

Implicit Types (w : Service).

Lemma clock_advance_armed t T w :
  armed t w -> t <= T -> clock (advance T w) = T.
Proof.
  destruct w as [s r cu d c n ts em]. unfold armed; simpl.
  intros (-> & h & -> & ->) Hle. unfold advance; simpl.
  destruct (Z.leb_spec (t + 300) T); simpl; lia.
Qed.

(** X16. Two bursts of calls with a pause of a full window between them
    give two signals, one for each burst, each 300 ms after the last
    call of its burst: the debounce coalesces the calls of a burst, and
    the pause ends the burst. *)
Theorem two_bursts_two_signals (w : Service) (t1 : Z) (rest1 : list Z)
    (t2 : Z) (rest2 : list Z) (T : Z) :
  timers w = [] -> chatUpdateTimer w = None -> clock w <= t1 ->
  rapid t1 rest1 ->
  List.last rest1 t1 + 300 <= t2 ->
  rapid t2 rest2 ->
  List.last rest2 t2 + 300 <= T ->
  chatsChangedAt (advance T (burst (t2 :: rest2) (burst (t1 :: rest1) w)))
  = (chatsChangedAt w ++ [List.last rest1 t1 + 300; List.last rest2 t2 + 300])%list.
Proof.
  intros Hidle Hnone Hclock Hrapid1 Hpause Hrapid2 HT.
  destruct (notifyAt_idle t1 w Hidle Hnone Hclock) as [Harmed1 Hem1].
  destruct (burst_armed rest1 t1 _ Harmed1 Hrapid1) as [Hlast1 Hsame1].
  change (burst rest1 (notifyAt t1 w)) with (burst (t1 :: rest1) w) in Hlast1, Hsame1.
  set (w1 := burst (t1 :: rest1) w) in *.
  change (burst (t2 :: rest2) w1) with (burst rest2 (notifyAt t2 w1)).
  unfold notifyAt at 1.
  destruct (advance_armed _ t2 w1 Hlast1) as [_ Hfired].
  destruct (Hfired Hpause) as (Hem2 & Htimers2 & Hcu2).
  pose proof (clock_advance_armed _ t2 w1 Hlast1 ltac:(lia)) as Hclock2.
  set (w2 := advance t2 w1) in *.
  assert (Hidle2 : armed t2 (notifyChatsChanged w2)
                   /\ emitted (notifyChatsChanged w2) = emitted w2).
  { destruct w2 as [s r cu d c n ts em]; simpl in *. subst.
    unfold armed, notifyChatsChanged; simpl. repeat split. eauto. }
  destruct Hidle2 as [Harmed2 Hem3].
  destruct (burst_armed rest2 t2 _ Harmed2 Hrapid2) as [Hlast2 Hsame2].
  destruct (advance_armed _ T _ Hlast2) as [_ Hfired2].
  destruct (Hfired2 HT) as (Hem4 & _ & _).
  unfold chatsChangedAt.
  rewrite Hem4, Hsame2, Hem3, Hem2, Hsame1, Hem1, !omap_app. simpl.
  by rewrite <- app_assoc.
Qed.

Lemma two_bursts_two_signals_witness :
  let w := newService emptyDb 0 in
  (timers w = [] /\ chatUpdateTimer w = None /\ clock w <= 10
   /\ rapid 10 [100] /\ List.last [100] 10 + 300 <= 1000
   /\ rapid 1000 [1200] /\ List.last [1200] 1000 + 300 <= 2000)
  /\ chatsChangedAt (advance 2000 (burst [1000; 1200] (burst [10; 100] w)))
     = [400; 1500].
Proof.
  intros w.
  assert (H1 : rapid 10 [100]) by (simpl; lia).
  assert (H2 : rapid 1000 [1200]) by (simpl; lia).
  assert (Hc : clock w <= 10) by (simpl; lia).
  assert (Hp : List.last [100] 10 + 300 <= 1000) by (simpl; lia).
  assert (HT : List.last [1200] 1000 + 300 <= 2000) by (simpl; lia).
  split; [repeat split; (reflexivity || assumption || (simpl; lia))|].
  exact (two_bursts_two_signals w 10 [100] 1000 [1200] 2000 eq_refl eq_refl Hc H1 Hp H2 HT).
Defined.

End TwoBursts.

(** X17. An open signal gives the retry budget back: the counter is
    zero, [Connected] and then [ready] are announced, the pending
    timers stay as they are, and the next close that is not a logout
    retries, one second ahead, whatever the counter was. *)
Theorem open_restores_budget (loggedOut : Z) (w : Service) (code : option Z) :
  let w1 := onConnectionUpdate loggedOut (mkConnectionUpdate (Some ConnOpen) None None) w in
  retryCount w1 = 0
  /\ emitted w1 = (emitted w ++ [(clock w, EvConnectionState Connected);
                                 (clock w, EvReady)])%list
  /\ timers w1 = timers w
  /\ (code <> Some loggedOut ->
      let w2 := onConnectionUpdate loggedOut (closeWith code) w1 in
      retryCount w2 = 1
      /\ observedState w2 = Connecting
      /\ timers w2 = (timers w ++ [mkTimer (nextHandle w) (clock w + 1000) Reconnect])%list).
Proof.
  intros w1.
  assert (Hw1 : w1 = emit EvReady (emit (EvConnectionState Connected) (set_retryCount 0 w)))
    by reflexivity.
  split; [by rewrite Hw1|]. split; [rewrite Hw1; simpl; by rewrite <- app_assoc|].
  split; [by rewrite Hw1|].
  intros Hcode w2. unfold w2.
  rewrite close_retry by (try done; rewrite Hw1; simpl; unfold maxRetries; lia).
  rewrite Hw1. simpl. split; [done|]. split; [|done].
  unfold observedState; simpl. by rewrite !foldl_app.
Qed.

Lemma open_restores_budget_witness :
  let w := closes 401 [None; None; None; None; None] (connect (newService emptyDb 0)) in
  let w1 := onConnectionUpdate 401 (mkConnectionUpdate (Some ConnOpen) None None) w in
  retryCount w = 5 /\ None <> Some 401
  /\ retryCount w1 = 0
  /\ observedState (onConnectionUpdate 401 (closeWith None) w1) = Connecting.
Proof.
  intros w w1.
  assert (Hcode : (None : option Z) <> Some 401) by discriminate.
  split; [reflexivity|]. split; [exact Hcode|].
  destruct (open_restores_budget 401 w None) as (Hzero & _ & _ & Hnext).
  split; [exact Hzero|].
  destruct (Hnext Hcode) as (_ & Hstate & _). exact Hstate.
Defined.

Section ChatEvents.

Implicit Types (db : Db).

Lemma skippedId_Some j :
  j <> "" -> j <> "status@broadcast" -> skippedId (Some j) = false.
Proof.
  intros Hj Hcast. unfold skippedId; simpl.
  apply truthy_true in Hj. rewrite Hj. simpl.
  apply bool_decide_eq_false_2. congruence.
Qed.

(** X18. A conversation that [chats.upsert] or the history sync
    writes always gets a name, the one that comes with it or else the
    number taken from the identifier. [chats.update] sets the name
    that comes with it; when none comes, it keeps the stored name, and
    a conversation it creates has the empty name. Both store the
    unread counter that comes with the event, zero when none comes. *)
Theorem chat_events_name (chat : WAChat.t) (j : string) (db : Db) :
  WAChat.id chat = Some j -> j <> "" -> j <> "status@broadcast" ->
  (exists row, chats (syncChat chat db) !! j = Some row
     /\ c_name row = JS.or_default (WAChat.name chat) (jidToPhoneNumber j)
     /\ c_name row <> ""
     /\ unread_count row = default 0 (WAChat.unreadCount chat))
  /\ (exists row, chats (updateChat chat db) !! j = Some row
        /\ c_name row = (if JS.truthy_opt (WAChat.name chat)
                         then default "" (WAChat.name chat)
                         else from_option c_name "" (chats db !! j))
        /\ unread_count row = default 0 (WAChat.unreadCount chat)).
Proof.
  intros Hid Hj Hcast.
  assert (Hname : JS.or_default (WAChat.name chat) (jidToPhoneNumber j) <> "")
    by by apply or_default_nonempty, jidToPhoneNumber_nonempty.
  split.
  - unfold syncChat. rewrite Hid, skippedId_Some by done. simpl.
    eexists. split; [apply lookup_insert_on_conflict|].
    apply truthy_true in Hname.
    destruct (chats db !! j) as [stored|]; simpl; rewrite ?Hname;
      repeat split; try done; by apply truthy_true.
  - unfold updateChat. rewrite Hid, skippedId_Some by done. simpl.
    destruct (WAChat.name chat) as [n|] eqn:Hn; simpl.
    + destruct (JS.truthy n) eqn:Htruthy.
      * eexists. split.
        { unfold updateChatName, set_chats, update_where; simpl.
          rewrite lookup_alter_eq, lookup_insert_on_conflict. reflexivity. }
        simpl. by destruct (chats db !! j).
      * eexists. split; [apply lookup_insert_on_conflict|].
        unfold JS.or. rewrite Htruthy. simpl.
        by destruct (chats db !! j).
    + eexists. split; [apply lookup_insert_on_conflict|]. simpl.
      by destruct (chats db !! j).
Qed.

Lemma chat_events_name_witness :
  let chat := WAChat.mk (Some "4915@s.whatsapp.net") None (Some (TsNumber 5)) (Some 2) in
  WAChat.id chat = Some "4915@s.whatsapp.net"
  /\ exists row, chats (syncChat chat emptyDb) !! "4915@s.whatsapp.net" = Some row
       /\ c_name row = "+4915" /\ unread_count row = 2.
Proof.
  intros chat.
  assert (Hid : WAChat.id chat = Some "4915@s.whatsapp.net") by reflexivity.
  split; [exact Hid|].
  destruct (chat_events_name chat "4915@s.whatsapp.net" emptyDb Hid)
    as [(row & Hrow & Hname & _ & Hunread) _]; [discriminate | discriminate |].
  exists row. split; [exact Hrow|]. split; [exact Hname | exact Hunread].
Defined.

(** X19. The live loop writes what the history loop writes, and then
    counts the message as unread when it is not the owner's: for a
    message whose sender is not [status@broadcast], the store after
    [onMessage] is the store after [syncMessage], with the unread
    counter of the conversation incremented for a kept message of
    somebody else. The history sync itself announces nothing: it emits
    no event and leaves the debounce timer set. *)
Theorem live_loop_is_history_loop_plus_unread (msg : WAMessage.t) (w : Service)
    (h : HistorySet) :
  (JS.or_default (MessageKey.participant (WAMessage.key msg))
     (JS.or_default (MessageKey.remoteJid (WAMessage.key msg)) "")
   <> "status@broadcast" ->
   db (onMessage msg w)
   = match retained (clock w) msg with
     | Some parsed =>
         if isFromMe parsed then syncMessage (clock w) msg (db w)
         else incrementUnreadCount (chatJid parsed) (syncMessage (clock w) msg (db w))
     | None => syncMessage (clock w) msg (db w)
     end)
  /\ emitted (onHistorySet h w) = emitted w
  /\ is_Some (chatUpdateTimer (onHistorySet h w)).
Proof.
  split; [|split].
  - intros Hsender. rewrite onMessage_parts, syncMessage_parts.
    destruct (retained (clock w) msg) as [parsed|]; [|done].
    rewrite db_notifyChatsChanged.
    change (db (emit (EvMessage parsed) (with_db (storeLive msg parsed) w)))
      with (storeLive msg parsed (db w)).
    unfold storeLive, storeSynced.
    assert (Hcapture : capturePushName true msg parsed (db w)
                       = capturePushName false msg parsed (db w)).
    { unfold capturePushName. simpl.
      by rewrite (bool_decide_eq_false_2 _ Hsender). }
    rewrite Hcapture. by destruct (isFromMe parsed).
  - unfold onHistorySet. by rewrite emitted_notifyChatsChanged.
  - apply chatUpdateTimer_notifyChatsChanged.
Qed.

Lemma live_loop_is_history_loop_plus_unread_witness :
  let w := connect (newService emptyDb 0) in
  let msg :=
    WAMessage.mk (MessageKey.mk (Some "4915@s.whatsapp.net") (Some false) (Some "M1") None)
                 (Some (plainText "hi")) (Some (TsNumber 1)) (Some "Alice") None in
  JS.or_default (MessageKey.participant (WAMessage.key msg))
    (JS.or_default (MessageKey.remoteJid (WAMessage.key msg)) "") <> "status@broadcast"
  /\ db (onMessage msg w)
     = incrementUnreadCount "4915@s.whatsapp.net" (syncMessage 0 msg emptyDb).
Proof.
  intros w msg.
  assert (Hsender : JS.or_default (MessageKey.participant (WAMessage.key msg))
            (JS.or_default (MessageKey.remoteJid (WAMessage.key msg)) "")
          <> "status@broadcast") by discriminate.
  split; [exact Hsender|].
  destruct (live_loop_is_history_loop_plus_unread msg w (mkHistorySet [] [] []))
    as [Hlive _].
  exact (Hlive Hsender).
Defined.

End ChatEvents.

(** * Properties of the interface helpers *)

Section Slices.

Context {A : Type}.
Implicit Types (xs str : list A).

Lemma slice_from_start stop xs :
  slice 0 stop xs
  = take (Z.to_nat (if stop <? 0 then Z.of_nat (length xs) + stop else stop)) xs.
Proof.
  unfold slice. simpl. rewrite !(Z.min_l 0) by lia. simpl. rewrite drop_0, Z.sub_0_r.
  destruct (Z.ltb_spec stop 0).
  - destruct (Z.le_gt_cases 0 (Z.of_nat (length xs) + stop)).
    + by rewrite Z.max_l by lia.
    + rewrite Z.max_r by lia.
      by rewrite (Z2Nat.nonpos (Z.of_nat (length xs) + stop)) by lia.
  - destruct (Z.le_gt_cases stop (Z.of_nat (length xs))).
    + by rewrite Z.min_l by lia.
    + rewrite Z.min_r by lia. rewrite !take_ge; [done | lia | lia].
Qed.

Lemma slice_window start stop xs :
  0 <= start <= stop ->
  slice start stop xs = take (Z.to_nat (stop - start)) (drop (Z.to_nat start) xs).
Proof.
  intros Hrange. unfold slice.
  destruct (Z.ltb_spec start 0); [lia|]. destruct (Z.ltb_spec stop 0); [lia|].
  destruct (Z.le_gt_cases start (Z.of_nat (length xs))).
  - rewrite (Z.min_l start) by lia.
    destruct (Z.le_gt_cases stop (Z.of_nat (length xs))).
    + by rewrite Z.min_l by lia.
    + rewrite Z.min_r by lia.
      rewrite !take_ge; [done | rewrite length_drop; lia | rewrite length_drop; lia].
  - rewrite !Z.min_r by lia. rewrite !drop_ge by lia. by rewrite !take_nil.
Qed.

(** X20. [truncate] returns a string that fits as it is. A longer one
    is cut to [maxLength - 1] code units and the ellipsis, [maxLength]
    code units in all, when [maxLength] is at least 1. When
    [maxLength] is zero or negative, the end of the slice counts from
    the end of the string, and the result is longer than [maxLength]:
    for zero it is as long as the string. *)
Theorem truncate_fits (ellipsis : A) (str : list A) (maxLength : Z) :
  (Z.of_nat (length str) <= maxLength -> truncate ellipsis str maxLength = str)
  /\ (maxLength < Z.of_nat (length str) -> 1 <= maxLength ->
      truncate ellipsis str maxLength
      = (take (Z.to_nat (maxLength - 1)) str ++ [ellipsis])%list
      /\ Z.of_nat (length (truncate ellipsis str maxLength)) = maxLength)
  /\ (maxLength < Z.of_nat (length str) -> maxLength <= 0 ->
      truncate ellipsis str maxLength
      = (take (Z.to_nat (Z.of_nat (length str) + maxLength - 1)) str ++ [ellipsis])%list
      /\ (maxLength = 0 ->
          length (truncate ellipsis str maxLength) = length str)).
Proof.
  unfold truncate. split; [|split].
  - intros Hfit. by destruct (Z.leb_spec (Z.of_nat (length str)) maxLength); [|lia].
  - intros Hlong Hpos.
    destruct (Z.leb_spec (Z.of_nat (length str)) maxLength); [lia|].
    rewrite slice_from_start. destruct (Z.ltb_spec (maxLength - 1) 0); [lia|].
    split; [done|]. rewrite length_app, length_take. simpl. lia.
  - intros Hlong Hneg.
    destruct (Z.leb_spec (Z.of_nat (length str)) maxLength); [lia|].
    rewrite slice_from_start. destruct (Z.ltb_spec (maxLength - 1) 0); [|lia].
    rewrite Z.add_sub_assoc. split; [done|].
    intros ->. rewrite length_app, length_take. simpl. lia.
Qed.

End Slices.

Lemma truncate_fits_witness :
  (3 < Z.of_nat (length [1; 2; 3; 4; 5]%nat) /\ 1 <= 3)
  /\ truncate 0%nat [1; 2; 3; 4; 5]%nat 3 = [1; 2; 0]%nat
  /\ length (truncate 0%nat [1; 2; 3; 4; 5]%nat 0) = 5%nat.
Proof.
  assert (Hlong : 3 < Z.of_nat (length [1; 2; 3; 4; 5]%nat)) by (simpl; lia).
  assert (Hzero : 0 < Z.of_nat (length [1; 2; 3; 4; 5]%nat)) by (simpl; lia).
  split; [split; [exact Hlong | lia]|].
  destruct (truncate_fits 0%nat [1; 2; 3; 4; 5]%nat 3) as (_ & Hcut & _).
  destruct (truncate_fits 0%nat [1; 2; 3; 4; 5]%nat 0) as (_ & _ & Hneg).
  split.
  - destruct (Hcut Hlong ltac:(lia)) as [Heq _]. exact Heq.
  - destruct (Hneg Hzero ltac:(lia)) as [_ Hlen]. apply Hlen. reflexivity.
Defined.

Section ChatListRows.

Implicit Types (chats : list Chat) (c : Chat).

(** X21. Every row of the conversation list gets a label: when nothing
    is stored for the empty identifier, each conversation that
    [getAllChats] returns has a non-empty [displayName], which is its
    name when it has one and is taken from the identifier otherwise. *)
Theorem listed_chats_have_labels (db : Db) (c : Chat) :
  chats db !! "" = None ->
  c ∈ getAllChats db ->
  displayName c <> ""
  /\ (name c <> "" -> displayName c = name c)
  /\ (name c = "" -> displayName c = JS.or (before_at (jid c)) (jid c)).
Proof.
  intros Hempty Hin.
  apply getAllChats_row in Hin as (row & Hrow & _).
  assert (Hjid : jid c <> "") by (intros Heq; rewrite Heq in Hrow; congruence).
  unfold displayName, JS.or. split; [|split].
  - destruct (JS.truthy (name c)) eqn:Hn; [by apply truthy_true|].
    destruct (JS.truthy (before_at (jid c))) eqn:Hb; [by apply truthy_true | done].
  - intros Hname. apply truthy_true in Hname. by rewrite Hname.
  - by intros ->.
Qed.

Lemma listed_chats_have_labels_witness :
  let w := snd (sendMessage "4915@s.whatsapp.net" "ok" (SendOk (Some "ID1"))
                  (connect (newService emptyDb 5000))) in
  let c := mkChat "4915@s.whatsapp.net" "" "ok" 5000 0 false in
  chats (db w) !! "" = None /\ c ∈ getAllChats (db w)
  /\ displayName c = "4915".
Proof.
  intros w c.
  assert (Hempty : chats (db w) !! "" = None) by (vm_compute; reflexivity).
  assert (Hin : c ∈ getAllChats (db w)).
  { assert (Hlist : getAllChats (db w) = [c]) by (vm_compute; reflexivity).
    rewrite Hlist. apply list_elem_of_here. }
  split; [exact Hempty|]. split; [exact Hin|].
  destruct (listed_chats_have_labels (db w) c Hempty Hin) as (_ & _ & Hlabel).
  exact (Hlabel eq_refl).
Defined.

Lemma findIndex_range j chats : -1 <= findIndex j chats < Z.of_nat (length chats).
Proof.
  induction chats as [|c chats IH]; simpl; [lia|].
  case_bool_decide; [lia|]. destruct (Z.ltb_spec (findIndex j chats) 0); lia.
Qed.

Lemma findIndex_found j chats :
  0 <= findIndex j chats ->
  exists c, chats !! Z.to_nat (findIndex j chats) = Some c /\ jid c = j.
Proof.
  induction chats as [|c chats IH]; simpl; [lia|].
  case_bool_decide as Hc; [intros _; by exists c|].
  destruct (Z.ltb_spec (findIndex j chats) 0); [lia|]. intros _.
  destruct IH as (c' & Hc' & Hj); [lia|]. exists c'. split; [|done].
  rewrite Z2Nat.inj_add by lia. rewrite Nat.add_1_r. exact Hc'.
Qed.

Lemma findIndex_elem j chats c : c ∈ chats -> jid c = j -> 0 <= findIndex j chats.
Proof.
  induction chats as [|a chats IH]; intros Hin Hj; [by apply elem_of_nil in Hin|].
  simpl. case_bool_decide as Ha; [lia|].
  apply elem_of_cons in Hin as [->|Hin]; [done|].
  specialize (IH Hin Hj). destruct (Z.ltb_spec (findIndex j chats) 0); lia.
Qed.

Lemma findIndex_absent j chats :
  (forall c, c ∈ chats -> jid c <> j) -> findIndex j chats = -1.
Proof.
  intros Habsent. pose proof (findIndex_range j chats) as Hrange.
  destruct (Z.le_gt_cases 0 (findIndex j chats)) as [Hfound|]; [|lia].
  apply findIndex_found in Hfound as (c & Hc & Hj).
  exfalso. apply (Habsent c); [|done]. by eapply list_elem_of_lookup_2.
Qed.

Lemma findIndex_NoDup chats (i : nat) c :
  NoDup (jid <$> chats) -> chats !! i = Some c ->
  findIndex (jid c) chats = Z.of_nat i.
Proof.
  revert i. induction chats as [|a chats IH]; intros i Hnd Hi; [done|].
  rewrite fmap_cons in Hnd. apply NoDup_cons in Hnd as [Hnotin Hnd].
  destruct i as [|i]; simpl in *.
  - injection Hi as ->. by rewrite bool_decide_eq_true_2.
  - rewrite bool_decide_eq_false_2.
    + rewrite (IH i Hnd Hi). destruct (Z.ltb_spec (Z.of_nat i) 0); lia.
    + intros Heq. apply Hnotin. rewrite Heq.
      apply list_elem_of_fmap_2. by eapply list_elem_of_lookup_2.
Qed.

(** X22. The selection of the conversation list is kept by identifier.
    With a list that is not empty some conversation is always
    selected; the selected one is the conversation with the selected
    identifier wherever it stands in the list, and the first one when
    nothing is selected or the selected identifier is not in the list.
    In a list without repeated identifiers, [moveDown] selects the next
    conversation and stays on the last one, [moveUp] selects the one
    before and stays on the first one. *)
Theorem selection_follows_conversation (selectedJid : option string)
    (chats : list Chat) :
  (chats <> [] -> is_Some (selectedChat selectedJid chats))
  /\ (forall j c, selectedJid = Some j -> j <> "" -> c ∈ chats -> jid c = j ->
        exists c', selectedChat selectedJid chats = Some c' /\ jid c' = j)
  /\ (selectedJid = None
      \/ (forall c, c ∈ chats -> Some (jid c) <> selectedJid) ->
      selectedChat selectedJid chats = head chats)
  /\ (forall (i : nat) c,
        NoDup (jid <$> chats) -> chats !! i = Some c -> jid c <> "" ->
        selectedJid = Some (jid c) ->
        selectedChat selectedJid chats = Some c
        /\ moveDown selectedJid chats = Some (jid (default c (chats !! S i)))
        /\ moveUp selectedJid chats = Some (jid (default c (chats !! pred i)))).
Proof.
  unfold moveDown, moveUp, selectedChat, selectedIndex, at_index.
  split; [|split; [|split]].
  - intros Hne. destruct chats as [|c0 chats]; [done|].
    destruct (JS.truthy_opt selectedJid); [|simpl; eauto].
    pose proof (findIndex_range (default "" selectedJid) (c0 :: chats)) as Hrange.
    destruct (Z.ltb_spec (Z.max 0 (findIndex (default "" selectedJid) (c0 :: chats))) 0);
      [lia|].
    apply lookup_lt_is_Some. cbn [length] in *. lia.
  - intros j c -> Hj Hin Hc. simpl. apply truthy_true in Hj. rewrite Hj.
    pose proof (findIndex_elem j chats c Hin Hc) as Hfound.
    rewrite Z.max_r by lia.
    destruct (Z.ltb_spec (findIndex j chats) 0); [lia|].
    by apply findIndex_found.
  - intros Hnone.
    assert (Hzero : (if JS.truthy_opt selectedJid
                     then Z.max 0 (findIndex (default "" selectedJid) chats)
                     else 0) = 0).
    { destruct Hnone as [-> | Habsent]; [done|].
      destruct selectedJid as [j|]; [|done]. simpl.
      destruct (JS.truthy j); [|done].
      rewrite findIndex_absent; [done|].
      intros c Hc Heq. apply (Habsent c Hc). by rewrite Heq. }
    rewrite Hzero. simpl. by destruct chats.
  - intros i c Hnd Hi Hj ->. simpl. apply truthy_true in Hj. rewrite Hj.
    rewrite (findIndex_NoDup chats i c Hnd Hi).
    pose proof (lookup_lt_Some _ _ _ Hi) as Hlt.
    rewrite !Z.max_r by lia.
    destruct (Z.ltb_spec (Z.of_nat i) 0); [lia|]. rewrite Nat2Z.id.
    split; [done|]. split.
    + destruct (chats !! S i) as [next|] eqn:Hnext.
      * pose proof (lookup_lt_Some _ _ _ Hnext) as Hlt'.
        rewrite Z.min_r by lia.
        destruct (Z.ltb_spec (Z.of_nat i + 1) 0); [lia|].
        replace (Z.to_nat (Z.of_nat i + 1)) with (S i) by lia. by rewrite Hnext.
      * apply lookup_ge_None in Hnext.
        rewrite Z.min_l by lia.
        destruct (Z.ltb_spec (Z.of_nat (length chats) - 1) 0); [lia|].
        replace (Z.to_nat (Z.of_nat (length chats) - 1)) with i by lia.
        by rewrite Hi.
    + destruct i as [|i]; cbn [pred].
      * replace (Z.to_nat (Z.max 0 (Z.of_nat 0 - 1))) with 0%nat by lia.
        by rewrite Hi.
      * match goal with
        | |- context [chats !! Z.to_nat ?z] => replace (Z.to_nat z) with i by lia
        end.
        assert (is_Some (chats !! i)) as [prev Hprev]
          by (apply lookup_lt_is_Some; lia).
        destruct (Z.ltb_spec (Z.max 0 (Z.of_nat (S i) - 1)) 0); [lia|].
        by rewrite Hprev.
Qed.

Lemma selection_follows_conversation_witness :
  let a := mkChat "A" "Alice" "hi" 3000 0 false in
  let b := mkChat "B" "Bob" "yo" 2000 0 false in
  let c := mkChat "C" "Carol" "ok" 1000 0 false in
  (NoDup (jid <$> [b; a; c]) /\ [b; a; c] !! 1%nat = Some a /\ jid a <> "")
  /\ selectedChat (Some "A") [b; a; c] = Some a
  /\ moveDown (Some "A") [b; a; c] = Some "C"
  /\ moveUp (Some "A") [b; a; c] = Some "B".
Proof.
  intros a b c.
  assert (Hnd : NoDup (jid <$> [b; a; c])).
  { apply (bool_decide_unpack (NoDup (jid <$> [b; a; c]))). vm_compute. exact I. }
  assert (Hne : jid a <> "") by discriminate.
  split; [split; [exact Hnd | split; [reflexivity | exact Hne]]|].
  destruct (selection_follows_conversation (Some "A") [b; a; c]) as (_ & _ & _ & Hmove).
  exact (Hmove 1%nat a Hnd eq_refl Hne eq_refl).
Defined.

(** X23. The scroll window of the conversation list starts at or
    before the selected row and holds at most [maxVisible] rows, which
    are consecutive rows of the list; the selected row is one of them,
    and its place in the window is its index less the start of the
    window. *)
Theorem selected_row_is_visible (chats : list Chat) (selected maxVisible : Z) :
  1 <= maxVisible ->
  0 <= selected < Z.of_nat (length chats) ->
  let start := startIndex selected maxVisible in
  0 <= start <= selected
  /\ selected - start < maxVisible
  /\ visibleChats chats selected maxVisible
     = take (Z.to_nat maxVisible) (drop (Z.to_nat start) chats)
  /\ (length (visibleChats chats selected maxVisible) <= Z.to_nat maxVisible)%nat
  /\ visibleChats chats selected maxVisible !! Z.to_nat (selected - start)
     = chats !! Z.to_nat selected.
Proof.
  intros Hmax Hsel start.
  assert (Hstart : 0 <= start <= selected /\ selected - start < maxVisible).
  { unfold start, startIndex. destruct (Z.geb_spec selected maxVisible); lia. }
  assert (Hvis : visibleChats chats selected maxVisible
                 = take (Z.to_nat maxVisible) (drop (Z.to_nat start) chats)).
  { unfold visibleChats. fold start. rewrite slice_window by lia.
    do 2 f_equal. lia. }
  split; [apply Hstart|]. split; [apply Hstart|]. split; [exact Hvis|].
  rewrite Hvis. split.
  - rewrite length_take. lia.
  - rewrite lookup_take_lt by lia. rewrite lookup_drop. f_equal. lia.
Qed.

Lemma selected_row_is_visible_witness :
  let a := mkChat "A" "Alice" "hi" 3000 0 false in
  let b := mkChat "B" "Bob" "yo" 2000 0 false in
  let c := mkChat "C" "Carol" "ok" 1000 0 false in
  (1 <= 2 /\ 0 <= 2 < Z.of_nat (length [a; b; c]))
  /\ visibleChats [a; b; c] 2 2 = [b; c]
  /\ visibleChats [a; b; c] 2 2 !! 1%nat = Some c.
Proof.
  intros a b c.
  assert (Hsel : 0 <= 2 < Z.of_nat (length [a; b; c])) by (simpl; lia).
  split; [split; [lia | exact Hsel]|].
  destruct (selected_row_is_visible [a; b; c] 2 2 ltac:(lia) Hsel)
    as (_ & _ & Hvis & _ & Hrow).
  split; [exact Hvis | exact Hrow].
Defined.

End ChatListRows.

(** X24. The two places that resolve a contact name agree: the name
    the query of [getAllChats] computes with [COALESCE] and [NULLIF] is
    the name [getContactName] returns, and the empty string when it
    returns [null]; and [getContactName] returns a name exactly when
    the addressbook name or the notify name on record is not empty,
    the addressbook name first. *)
Theorem contact_name_agrees (j : string) (db : Db) :
  contact_name j db = JS.or_default (getContactName j db) ""
  /\ (getContactName j db = None <->
      addressbookName j db = "" /\ notifyName j db = "")
  /\ (forall n, getContactName j db = Some n ->
        n <> "" /\ n = firstNonEmpty [addressbookName j db; notifyName j db]).
Proof.
  unfold contact_name, getContactName, addressbookName, notifyName, COALESCE,
    NULLIF_empty, JS.or_default, JS.or.
  destruct (contacts db !! j) as [[n f]|]; simpl; [|by repeat split].
  destruct (JS.truthy n) eqn:Hn; simpl.
  - rewrite Hn. split; [done|]. split.
    + split; [done|]. intros [-> _]. discriminate Hn.
    + intros n' [= <-]. split; [by apply truthy_true | done].
  - apply truthy_false in Hn as ->.
    destruct (JS.truthy f) eqn:Hf; simpl.
    + rewrite Hf. split; [done|]. split.
      * split; [done|]. intros [_ ->]. discriminate Hf.
      * intros n' [= <-]. split; [by apply truthy_true | done].
    + apply truthy_false in Hf as ->. by repeat split.
Qed.
